(** * The gPXE option configuration console (hci/tui/settings_ui.c)

    A shallow embedding of the tree-navigating variant of the settings
    console: the row enumerator [row] with its relevance test
    [relevant], the scroll window manager [reveal], the edit state
    machine ([load_setting], [save_setting], [edit_setting]) and the
    navigator loop ([main_loop], [settings_ui]).

    Unsigned 32-bit arithmetic is written out on [Z] with [u32]; the
    settings store, the registry table, the line editor and the key
    codes live outside this file of the program and are gathered in the
    record [platform]. *)

From Stdlib Require Import ZArith List String Ascii Bool Lia.
Import ListNotations.
Open Scope Z_scope.
Set Warnings "-register-all".

(** ** Machine integers *)

(** [unsigned int]: arithmetic is taken modulo 2^32. *)
Definition u32 (x : Z) : Z := x mod 2 ^ 32.

Definition UINT_MAX : Z := 2 ^ 32 - 1.

Definition is_u32 (x : Z) : Prop := 0 <= x < 2 ^ 32.

(** ** Screen layout *)

Definition CPAIR_NORMAL : Z := 1.
Definition CPAIR_SELECT : Z := 2.
Definition CPAIR_EDIT : Z := 3.
Definition CPAIR_ALERT : Z := 4.

Definition TITLE_ROW : Z := 1.
Definition SETTINGS_LIST_ROW : Z := 3.
Definition SETTINGS_LIST_COL : Z := 1.
Definition SETTINGS_LIST_ROWS : Z := 16.
Definition INFO_ROW : Z := 20.
Definition ALERT_ROW : Z := 20.
Definition COMMENT_ROW : Z := 21.
Definition INSTRUCTION_ROW : Z := 22.
Definition INSTRUCTION_PAD : string := "     ".

(** [struct setting_row]: one pad byte, 15 bytes of name, one pad byte,
    60 bytes of value, one pad byte, NUL. *)
Definition NAME_WIDTH : nat := 15.
Definition VALUE_WIDTH : nat := 60.
(** [offsetof ( struct setting_row, value )] *)
Definition VALUE_OFFSET : Z := 17.
(** [sizeof ( widget->value )] *)
Definition VALUE_SIZE : Z := 256.

(** ** Settings blocks and settings *)

(** [struct setting]: a registry descriptor.  The [type] member is used
    only inside the typed fetch and store calls of the platform. *)
Record setting : Type := Setting {
  setting_name : string;
  description : string;
  tag : Z
}.

(** The part of a [struct settings] that hangs below it: its name, its
    tag magic and the list of its children, in list order. *)
Inductive settings_block : Type :=
| Block (nm : string) (magic : Z) (kids : list settings_block).

(** [struct settings *]: a block together with the back-reference to the
    block that holds it ([None] is the NULL parent pointer). *)
Inductive settings : Type :=
| Scope (up : option settings) (blk : settings_block).

Definition block_name (b : settings_block) : string :=
  match b with Block nm _ _ => nm end.
Definition block_magic (b : settings_block) : Z :=
  match b with Block _ magic _ => magic end.
Definition block_children (b : settings_block) : list settings_block :=
  match b with Block _ _ kids => kids end.

Definition block (s : settings) : settings_block :=
  match s with Scope _ blk => blk end.
(** [settings->parent] *)
Definition parent (s : settings) : option settings :=
  match s with Scope up _ => up end.
(** [settings->name] *)
Definition name (s : settings) : string := block_name (block s).
(** [settings->tag_magic] *)
Definition tag_magic (s : settings) : Z := block_magic (block s).
(** [settings->children]: every entry points back to [s]. *)
Definition children (s : settings) : list settings :=
  map (Scope (Some s)) (block_children (block s)).

(** ** Row objects *)

(** [struct row_object]: the tag and the member of the union it selects. *)
Inductive row_object : Type :=
| PARENT_ROW (p : settings)
| CHILD_ROW (c : settings)
| SETTING_ROW (d : setting)
| ROW_CNT (cnt : Z).

(** ** Results of fallible code *)

(** [Fault] is a dereference of a pointer that does not point to an
    object of its type; [Hang] is a loop that never exits. *)
Inductive result (A : Type) : Type :=
| Ok (a : A)
| Fault
| Hang.
Arguments Ok {A} a.
Arguments Fault {A}.
Arguments Hang {A}.

Definition bind {A B : Type} (m : result A) (k : A -> result B) : result B :=
  match m with
  | Ok a => k a
  | Fault => Fault
  | Hang => Hang
  end.

Notation "x <- m ;; k" := (bind m (fun x => k))
  (at level 61, m at next level, right associativity).
Notation "' p <- m ;; k" := (bind m (fun x => let p := x in k))
  (at level 61, p pattern, m at next level, right associativity).

(** ** Bounded iteration *)

(** [iterate fuel step a] runs [step] at most [fuel] times and stops at
    the first [inr]. *)
Fixpoint iterate {A B : Type} (fuel : positive) (step : A -> A + B) (a : A)
  : A + B :=
  match fuel with
  | xH => step a
  | xO p =>
      match iterate p step a with
      | inl a' => iterate p step a'
      | inr b => inr b
      end
  | xI p =>
      match step a with
      | inl a' =>
          match iterate p step a' with
          | inl a'' => iterate p step a''
          | inr b => inr b
          end
      | inr b => inr b
      end
  end.

(** The same on unary fuel, for reasoning. *)
Fixpoint iterate_nat {A B : Type} (fuel : nat) (step : A -> A + B) (a : A)
  : A + B :=
  match fuel with
  | O => inl a
  | S f =>
      match step a with
      | inl a' => iterate_nat f step a'
      | inr b => inr b
      end
  end.

(** One test of a [while] loop and, if it passes, one run of the body. *)
Definition while_step (cond : Z -> bool) (body : Z -> Z) (v : Z) : Z + Z :=
  if cond v then inl (body v) else inr v.

(** A loop over an [unsigned int] moved in steps of 16 has 2^28 distinct
    states: a loop that has not exited after 2^28 tests never does. *)
Definition loop_fuel : positive := 2 ^ 28.

(** [while ( cond x ) x = body x;] *)
Definition while_loop (cond : Z -> bool) (body : Z -> Z) (x : Z) : result Z :=
  match iterate loop_fuel (while_step cond body) x with
  | inr v => Ok v
  | inl _ => Hang
  end.

(** ** Text fields *)

(** The first [width] characters of [s], filled up with [filler]. *)
Fixpoint fill_field (filler : ascii) (width : nat) (s : string) : string :=
  match width with
  | O => EmptyString
  | S w =>
      match s with
      | EmptyString => String filler (fill_field filler w EmptyString)
      | String c s' => String c (fill_field filler w s')
      end
  end.

(** [strncpy ( dst, src, size )] into a cleared buffer, read back as a
    C string: at most [size] bytes of [src]. *)
Definition strncpy (src : string) (size : Z) : string :=
  substring 0 (Z.to_nat size) src.

(** ** The platform *)

(** What the console uses from the rest of the program: the tag macros,
    the registry table [SETTINGS], the settings store with its typed
    calls, [strerror], [settings_name], the line editor and the key
    codes.  A call that fills a buffer returns the buffer it leaves
    behind, read as a C string; a call that changes the store returns
    the new store. *)
Record platform : Type := Platform {
  TAG_TYPE : Z -> Z;
  TAG_READONLY : Z -> bool;
  (** the [SETTINGS] table, in table order *)
  SETTINGS : list setting;
  store : Type;
  (** [fetch_setting ( settings, setting, NULL, 0 )] *)
  fetch_setting : store -> settings -> setting -> Z;
  (** [fetch_setting_ex ( settings, setting, NULL, 0, flags )] *)
  fetch_setting_ex : store -> settings -> setting -> Z -> Z;
  (** [fetchf_setting ( settings, setting, buf, len )] *)
  fetchf_setting : store -> settings -> setting -> string -> Z -> Z * string;
  (** [storef_setting ( settings, setting, value )] *)
  storef_setting : store -> settings -> setting -> string -> Z * store;
  (** [delete_setting ( settings, setting )] *)
  delete_setting : store -> settings -> setting -> store;
  strerror : Z -> string;
  settings_name : settings -> string;
  edit_box : Type;
  (** a [struct edit_box] of zero bytes *)
  zero_edit_box : edit_box;
  (** [init_editbox ( box, buf, len, NULL, row, col, width, flags )] *)
  init_editbox : string -> Z -> Z -> Z -> Z -> Z -> edit_box;
  (** [edit_editbox ( box, key )]: the key handed back, the box and the
      buffer the box edits in place *)
  edit_editbox : edit_box -> string -> Z -> Z * (edit_box * string);
  CR : Z;
  LF : Z;
  CTRL_C : Z;
  CTRL_D : Z;
  CTRL_X : Z;
  KEY_DOWN : Z;
  KEY_UP : Z;
  (** the labels of one [switch] differ *)
  keys_distinct : NoDup [CR; LF; CTRL_C; CTRL_D; CTRL_X; KEY_DOWN; KEY_UP]
}.

Section Console.

Variable P : platform.

(** ** The screen *)

(** Calls to the terminal, in the order they are made. *)
Inductive event : Type :=
| Mvprintw (r c : Z) (text : string)
| Mvaddstr (r c : Z) (text : string)
| Move (r c : Z)
| Clrtoeol
| Attron_bold
| Attroff_bold
| Color_set (pair : Z)
| Sleep (secs : Z)
| Centred (r : Z) (text : string)
| Draw_editbox (box : edit_box P)
| Initscr
| Start_color
| Init_pair (pair : Z) (fg bg : string)
| Erase
| Endwin.

(** ** The setting widget *)

(** [struct setting_widget].  [w_settings] is its [settings] member,
    [scr_row] and [scr_col] are its [row] and [col] members. *)
Record setting_widget : Type := Widget {
  w_settings : settings;
  total_rows : Z;
  first_visible : Z;
  ro : row_object;
  scr_row : Z;
  scr_col : Z;
  editbox : edit_box P;
  editing : bool;
  value : string
}.

(** [widget->ro.u.setting], dereferenced: only a [SETTING_ROW] holds a
    pointer to a [struct setting] in its union. *)
Definition ro_u_setting (r : row_object) : result setting :=
  match r with
  | SETTING_ROW d => Ok d
  | _ => Fault
  end.

(** [widget.ro.u.child], handed on as a [struct settings *]: the parent
    and the child pointer share the storage of the union; a count of
    zero reads as NULL. *)
Definition ro_u_child (r : row_object) : result (option settings) :=
  match r with
  | PARENT_ROW p => Ok (Some p)
  | CHILD_ROW c => Ok (Some c)
  | SETTING_ROW _ => Fault
  | ROW_CNT cnt => if cnt =? 0 then Ok None else Fault
  end.

(** ** load_setting, save_setting *)

Definition load_setting (st : store P) (w : setting_widget)
  : result setting_widget :=
  (* Mark as not editing; widget->value[0] = '\0' *)
  v <- match ro w with
       | PARENT_ROW p =>
           Ok (strncpy (if String.eqb (name p) EmptyString
                        then "<root>"%string else name p) VALUE_SIZE)
       | CHILD_ROW c => Ok (strncpy (name c) VALUE_SIZE)
       | r =>
           d <- ro_u_setting r ;;
           Ok (snd (fetchf_setting P st (w_settings w) d EmptyString
                      VALUE_SIZE))
       end ;;
  Ok {| w_settings := w_settings w;
        total_rows := total_rows w;
        first_visible := first_visible w;
        ro := ro w;
        scr_row := scr_row w;
        scr_col := scr_col w;
        editbox := init_editbox P v VALUE_SIZE (scr_row w)
                     (u32 (scr_col w + VALUE_OFFSET))
                     (Z.of_nat VALUE_WIDTH) 0;
        editing := false;
        value := v |}.

Definition save_setting (st : store P) (w : setting_widget)
  : result (Z * store P) :=
  d <- ro_u_setting (ro w) ;;
  Ok (storef_setting P st (w_settings w) d (value w)).

(** ** relevant *)

Fixpoint relevant_block (b : settings_block) (d : setting) : bool :=
  match b with
  | Block _ magic kids =>
      if TAG_TYPE P (tag d) =? TAG_TYPE P magic then true
      else existsb (fun child => relevant_block child d) kids
  end.

Definition relevant (s : settings) (d : setting) : bool :=
  relevant_block (block s) d.

(** ** row *)

(** [list_for_each_entry] with [if ( cnt++ == n ) return ...]: the row
    found, or the count reached at the end of the list. *)
Fixpoint row_children (l : list settings) (cnt n : Z) : row_object + Z :=
  match l with
  | [] => inr cnt
  | child :: l' =>
      if cnt =? n then inl (CHILD_ROW child)
      else row_children l' (u32 (cnt + 1)) n
  end.

(** [for_each_table_entry] over the relevant settings. *)
Fixpoint row_settings (s : settings) (l : list setting) (cnt n : Z)
  : row_object + Z :=
  match l with
  | [] => inr cnt
  | d :: l' =>
      if relevant s d then
        if cnt =? n then inl (SETTING_ROW d)
        else row_settings s l' (u32 (cnt + 1)) n
      else row_settings s l' cnt n
  end.

Definition row (s : settings) (n : Z) : row_object :=
  let cnt := 0 in
  (* First comes any parent. *)
  let first :=
    match parent s with
    | Some p => if cnt =? n then inl (PARENT_ROW p) else inr (u32 (cnt + 1))
    | None => inr cnt
    end in
  match first with
  | inl r => r
  | inr cnt =>
      (* Next come any children. *)
      match row_children (children s) cnt n with
      | inl r => r
      | inr cnt =>
          (* Next display relevant settings. *)
          match row_settings s (SETTINGS P) cnt n with
          | inl r => r
          | inr cnt => ROW_CNT cnt
          end
      end
  end.

(** [row ( ... ) .u.cnt]: the count member of the union. *)
Definition ro_u_cnt (r : row_object) : result Z :=
  match r with
  | ROW_CNT cnt => Ok cnt
  | _ => Fault
  end.

(** ** Messages *)

(** [clearmsg ( row )] *)
Definition clearmsg (r : Z) : list event := [Move r 0; Clrtoeol].

(** [msg ( row, fmt, ... )], after formatting: the text is centred on
    the row by [vmsg]. *)
Definition msg (r : Z) (text : string) : list event := [Centred r text].

(** [alert ( fmt, ... )], after formatting *)
Definition alert (text : string) : list event :=
  clearmsg ALERT_ROW
  ++ [Color_set CPAIR_ALERT] ++ msg ALERT_ROW text
  ++ [Sleep 2; Color_set CPAIR_NORMAL]
  ++ clearmsg ALERT_ROW.

(** The text of the alert of a failed save. *)
Definition could_not_set (d : setting) (rc : Z) : string :=
  (" Could not set " ++ setting_name d ++ ": " ++ strerror P rc ++ " ")%string.

Definition read_only : string := " read only ".

(** ** draw_setting *)

Definition draw_setting (st : store P) (w : setting_widget) : list event :=
  (* Construct dot-padded name *)
  let nm := match ro w with
            | SETTING_ROW d => setting_name d
            | PARENT_ROW _ => "parent"%string
            | _ => "child"%string
            end in
  (* Construct space-padded value *)
  let v := if String.eqb (value w) EmptyString
           then "<not specified>"%string else value w in
  let len := Z.min (Z.of_nat (String.length v)) (Z.of_nat VALUE_WIDTH) in
  let text := (" " ++ fill_field "."%char NAME_WIDTH nm ++ " "
               ++ fill_field " "%char VALUE_WIDTH v ++ " ")%string in
  let curs_col := u32 (scr_col w + VALUE_OFFSET + len) in
  (* Print line in bold if settings is not from a child. *)
  let bold := match ro w with
              | SETTING_ROW d =>
                  0 <=? fetch_setting_ex P st (w_settings w) d 0
              | _ => true
              end in
  (if bold then [Attron_bold] else [])
  ++ [Mvprintw (scr_row w) (scr_col w) text]
  ++ (if bold then [Attroff_bold] else [])
  ++ [Move (scr_row w) curs_col]
  ++ (if editing w then [Draw_editbox (editbox w)] else []).

(** ** edit_setting *)

Definition edit_setting (w : setting_widget) (key : Z)
  : Z * setting_widget :=
  let '(key', (box, v)) := edit_editbox P (editbox w) (value w) key in
  (key', {| w_settings := w_settings w;
            total_rows := total_rows w;
            first_visible := first_visible w;
            ro := ro w;
            scr_row := scr_row w;
            scr_col := scr_col w;
            editbox := box;
            editing := true;
            value := v |}).

(** ** select_setting *)

Definition select_setting (st : store P) (w : setting_widget) (index : Z)
  : result setting_widget :=
  (* Reset the widget, preserving static state. *)
  load_setting st
    {| w_settings := w_settings w;
       total_rows := total_rows w;
       first_visible := first_visible w;
       ro := row (w_settings w) index;
       scr_row := u32 (SETTINGS_LIST_ROW + index - first_visible w);
       scr_col := SETTINGS_LIST_COL;
       editbox := zero_edit_box P;
       editing := false;
       value := EmptyString |}.

(** ** The title, information, instruction and comment rows *)

Definition draw_title_row (s : settings) : list event :=
  let nm := settings_name P s in
  clearmsg TITLE_ROW
  ++ [Attron_bold]
  ++ msg TITLE_ROW
       ("gPXE " ++ nm ++ (if String.eqb nm EmptyString then nm else " ")
        ++ "option configuration console")%string
  ++ [Attroff_bold].

Definition draw_info_row (r : row_object) : result (list event) :=
  text <- match r with
          | PARENT_ROW _ => Ok "Enter - visit parent"%string
          | CHILD_ROW _ => Ok "Enter - visit child"%string
          | _ =>
              d <- ro_u_setting r ;;
              Ok (setting_name d ++ " - " ++ description d)%string
          end ;;
  Ok (clearmsg INFO_ROW ++ [Attron_bold] ++ msg INFO_ROW text
      ++ [Attroff_bold]).

Definition draw_instruction_row (ed : bool) : list event :=
  clearmsg INSTRUCTION_ROW
  ++ msg INSTRUCTION_ROW
       (if ed
        then ("Enter - accept changes" ++ INSTRUCTION_PAD
              ++ "Ctrl-C - discard changes")%string
        else ("Ctrl-D - delete setting" ++ INSTRUCTION_PAD
              ++ "Ctrl-X - exit configuration utility")%string).

Definition draw_comment_row (st : store P) (w : setting_widget)
  : list event :=
  clearmsg COMMENT_ROW
  ++ match ro w with
     | SETTING_ROW d =>
         if (0 <=? fetch_setting P st (w_settings w) d)
            && (fetch_setting_ex P st (w_settings w) d 0 <? 0)
         then msg COMMENT_ROW "[inherited from child scope]"
         else []
     | _ => []
     end.

(** ** reveal *)

(** [n - widget->first_visible < SETTINGS_LIST_ROWS] *)
Definition on_screen (fv n : Z) : bool := u32 (n - fv) <? SETTINGS_LIST_ROWS.

(** Jump scroll to make the specified setting visible: the two [while]
    loops, on [first_visible]. *)
Definition jump_scroll (fv n : Z) : result Z :=
  fv1 <- while_loop (fun v => v <? n)
           (fun v => u32 (v + SETTINGS_LIST_ROWS)) fv ;;
  while_loop (fun v => v >? n) (fun v => u32 (v - SETTINGS_LIST_ROWS)) fv1.

(** Draw visible settings: the body of the [for] loop, for each [i]. *)
Fixpoint draw_visible (st : store P) (w : setting_widget) (idx : list Z)
  : result (setting_widget * list event) :=
  match idx with
  | [] => Ok (w, [])
  | i :: idx' =>
      if u32 (first_visible w + i) <? total_rows w then
        w1 <- select_setting st w (u32 (first_visible w + i)) ;;
        ' (w2, out) <- draw_visible st w1 idx' ;;
        Ok (w2, draw_setting st w1 ++ out)
      else
        ' (w2, out) <- draw_visible st w idx' ;;
        Ok (w2, clearmsg (SETTINGS_LIST_ROW + i) ++ out)
  end.

Definition set_first_visible (w : setting_widget) (fv : Z) : setting_widget :=
  {| w_settings := w_settings w;
     total_rows := total_rows w;
     first_visible := fv;
     ro := ro w;
     scr_row := scr_row w;
     scr_col := scr_col w;
     editbox := editbox w;
     editing := editing w;
     value := value w |}.

Definition reveal (st : store P) (w : setting_widget) (n : Z)
  : result (setting_widget * list event) :=
  (* Simply return if setting N is already on-screen. *)
  if on_screen (first_visible w) n then Ok (w, [])
  else
    fv <- jump_scroll (first_visible w) n ;;
    let w0 := set_first_visible w fv in
    (* Draw elipses before and/or after the settings list *)
    let dots :=
      [Mvaddstr (SETTINGS_LIST_ROW - 1) (SETTINGS_LIST_COL + 1)
         (if fv >? 0 then "..." else "   ");
       Mvaddstr (SETTINGS_LIST_ROW + SETTINGS_LIST_ROWS)
         (SETTINGS_LIST_COL + 1)
         (if u32 (fv + SETTINGS_LIST_ROWS) <? total_rows w
          then "..." else "   ")] in
    ' (w1, out) <- draw_visible st w0
                     (map Z.of_nat (seq 0 (Z.to_nat SETTINGS_LIST_ROWS))) ;;
    (* Set the widget to the current row *)
    w2 <- select_setting st w1 n ;;
    Ok (w2, dots ++ out).

(** ** init_widget *)

Definition init_widget (st : store P) (s : settings)
  : result (setting_widget * list event) :=
  cnt <- ro_u_cnt (row s UINT_MAX) ;;
  (* Draw all rows initially.  The members after [first_visible] are
     zero bytes here and are not read before [select_setting] has
     stored a row. *)
  reveal st
    {| w_settings := s;
       total_rows := cnt;
       first_visible := SETTINGS_LIST_ROWS;
       ro := ROW_CNT 0;
       scr_row := 0;
       scr_col := 0;
       editbox := zero_edit_box P;
       editing := false;
       value := EmptyString |}
    0.

(** ** main_loop *)

(** The state of [main_loop] at the head of its [while ( 1 )]: the
    widget, [current], the settings store and what was written to the
    screen so far. *)
Record loop_state : Type := Loop {
  widget : setting_widget;
  current : Z;
  lstore : store P;
  screen : list event
}.

(** How one turn of the loop ends: it goes round again, or [main_loop]
    returns the next settings block (NULL is [None]). *)
Inductive outcome : Type :=
| Continue (l : loop_state)
| Return (next : option settings) (st : store P) (scr : list event).

(** How the [switch] of the non-editing branch ends: at a [break] with
    the widget, the store, the screen output and [next], or at a
    [return]. *)
Inductive switch_end : Type :=
| Break (w : setting_widget) (st : store P) (out : list event) (next : Z)
| Leave (next : option settings).

(** Print initial screen content. *)
Definition main_loop_start (s : settings) (st : store P) (scr : list event)
  : result loop_state :=
  ' (w, out) <- init_widget st s ;;
  Ok {| widget := w;
        current := 0;
        lstore := st;
        screen := scr ++ draw_title_row s ++ [Color_set CPAIR_NORMAL]
                  ++ out |}.

(** The redraw at the head of the loop. *)
Definition redraw (st : store P) (w : setting_widget)
  : result (list event) :=
  info <- draw_info_row (ro w) ;;
  Ok (info ++ draw_instruction_row (editing w) ++ draw_comment_row st w
      ++ [Color_set (if editing w then CPAIR_EDIT else CPAIR_SELECT)]
      ++ draw_setting st w
      ++ [Color_set CPAIR_NORMAL]).

(** [if ( widget.editing ) { ... }] *)
Definition editing_keys (w : setting_widget) (cur : Z) (st : store P)
  (scr : list event) (key : Z) : result outcome :=
  let '(key', w1) := edit_setting w key in
  if (key' =? CR P) || (key' =? LF P) then
    ' (rc, st') <- save_setting st w1 ;;
    al <- (if rc =? 0 then Ok []
           else d <- ro_u_setting (ro w1) ;;
                Ok (alert (could_not_set d rc))) ;;
    (* Fall through *)
    w2 <- load_setting st' w1 ;;
    Ok (Continue {| widget := w2; current := cur; lstore := st';
                    screen := scr ++ al |})
  else if key' =? CTRL_C P then
    w2 <- load_setting st w1 ;;
    Ok (Continue {| widget := w2; current := cur; lstore := st;
                    screen := scr |})
  else
    Ok (Continue {| widget := w1; current := cur; lstore := st;
                    screen := scr |}).

(** The [default:] label of the non-editing [switch]. *)
Definition default_key (w : setting_widget) (st : store P) (next key : Z)
  : switch_end :=
  match ro w with
  | SETTING_ROW d =>
      if negb (TAG_READONLY P (tag d))
      then Break (snd (edit_setting w key)) st [] next
      else Break w st (alert read_only) next
  | _ => Break w st (alert read_only) next
  end.

(** [switch ( key )] of the non-editing branch, with [next = current]. *)
Definition viewing_switch (w : setting_widget) (st : store P) (next key : Z)
  : result switch_end :=
  if key =? KEY_DOWN P then
    if next <? u32 (total_rows w - 1) then
      ' (w', out) <- reveal st w (u32 (next + 1)) ;;
      Ok (Break w' st out (u32 (next + 1)))
    else Ok (Break w st [] next)
  else if key =? KEY_UP P then
    if next >? 0 then
      ' (w', out) <- reveal st w (u32 (next - 1)) ;;
      Ok (Break w' st out (u32 (next - 1)))
    else Ok (Break w st [] next)
  else if key =? CTRL_D P then
    match ro w with
    | SETTING_ROW d =>
        let st' := delete_setting P st (w_settings w) d in
        w' <- select_setting st' w next ;;
        Ok (Break w' st' (draw_setting st' w') next)
    | _ => Ok (Break w st (alert read_only) next)
    end
  else if key =? CTRL_X P then Ok (Leave None)
  else if (key =? CR P) || (key =? LF P) then
    match ro w with
    | SETTING_ROW _ =>
        (* Fall through in all other cases. *)
        Ok (default_key w st next key)
    | r => target <- ro_u_child r ;; Ok (Leave target)
    end
  else Ok (default_key w st next key).

(** [else { ... }]: the [switch] and the move of the selection. *)
Definition viewing_keys (w : setting_widget) (cur : Z) (st : store P)
  (scr : list event) (key : Z) : result outcome :=
  sw <- viewing_switch w st cur key ;;
  match sw with
  | Leave target => Ok (Return target st scr)
  | Break w' st' out next =>
      if negb (next =? cur) then
        w'' <- select_setting st' w' next ;;
        Ok (Continue {| widget := w''; current := next; lstore := st';
                        screen := scr ++ out ++ draw_setting st' w' |})
      else
        Ok (Continue {| widget := w'; current := cur; lstore := st';
                        screen := scr ++ out |})
  end.

(** One turn of [while ( 1 )] on the key that [getkey()] delivers. *)
Definition main_loop_iter (l : loop_state) (key : Z) : result outcome :=
  let w := widget l in
  out <- redraw (lstore l) w ;;
  if editing w
  then editing_keys w (current l) (lstore l) (screen l ++ out) key
  else viewing_keys w (current l) (lstore l) (screen l ++ out) key.

(** How [main_loop] stands once the keys are used up: it has returned,
    leaving the rest of the keys unread, or it waits in [getkey()]. *)
Inductive main_loop_end : Type :=
| Returned (next : option settings) (st : store P) (scr : list event)
    (rest : list Z)
| Blocked (l : loop_state).

Fixpoint main_loop_keys (l : loop_state) (keys : list Z)
  : result main_loop_end :=
  match keys with
  | [] => Ok (Blocked l)
  | key :: rest =>
      o <- main_loop_iter l key ;;
      match o with
      | Continue l' => main_loop_keys l' rest
      | Return next st scr => Ok (Returned next st scr rest)
      end
  end.

Definition main_loop (s : settings) (st : store P) (scr : list event)
  (keys : list Z) : result main_loop_end :=
  l <- main_loop_start s st scr ;;
  main_loop_keys l keys.

(** ** settings_ui *)

(** How the session stands once the keys are used up. *)
Inductive session_end : Type :=
| Exited (rc : Z) (st : store P) (scr : list event)
| Waiting (l : loop_state).

(** [do { settings = main_loop ( settings ); } while ( settings );]
    Every return of [main_loop] has read a key, so one unit of [fuel]
    per key and one more is never used up. *)
Fixpoint settings_ui_loop (fuel : nat) (s : settings) (st : store P)
  (scr : list event) (keys : list Z) : result session_end :=
  match fuel with
  | O => Hang
  | S fuel' =>
      e <- main_loop s st scr keys ;;
      match e with
      | Returned (Some s') st' scr' rest =>
          settings_ui_loop fuel' s' st' scr' rest
      | Returned None st' scr' _ => Ok (Exited 0 st' (scr' ++ [Endwin]))
      | Blocked l => Ok (Waiting l)
      end
  end.

Definition settings_ui (s : settings) (st : store P) (keys : list Z)
  : result session_end :=
  settings_ui_loop (S (List.length keys)) s st
    [Initscr; Start_color;
     Init_pair CPAIR_NORMAL "COLOR_WHITE" "COLOR_BLUE";
     Init_pair CPAIR_SELECT "COLOR_WHITE" "COLOR_RED";
     Init_pair CPAIR_EDIT "COLOR_BLACK" "COLOR_CYAN";
     Init_pair CPAIR_ALERT "COLOR_WHITE" "COLOR_RED";
     Color_set CPAIR_NORMAL; Erase]
    keys.

(** ** Reachable states *)

(** The loop states of one call of [main_loop] on [s]. *)
Inductive in_main_loop (s : settings) : loop_state -> Prop :=
| at_start st scr l :
    main_loop_start s st scr = Ok l -> in_main_loop s l
| at_turn l key l' :
    in_main_loop s l -> main_loop_iter l key = Ok (Continue l') ->
    in_main_loop s l'.

(** The loop states of a session: those of its first [main_loop] and of
    every [main_loop] that [settings_ui] starts on a returned block. *)
Inductive in_session : loop_state -> Prop :=
| session_start s st scr l :
    main_loop_start s st scr = Ok l -> in_session l
| session_turn l key l' :
    in_session l -> main_loop_iter l key = Ok (Continue l') ->
    in_session l'
| session_restart l key s' st scr l' :
    in_session l -> main_loop_iter l key = Ok (Return (Some s') st scr) ->
    main_loop_start s' st scr = Ok l' ->
    in_session l'.

(** ** Predicates on widgets and loop states *)

(** A row object that holds a row, not a count. *)
Definition ro_valid (r : row_object) : Prop :=
  match r with
  | ROW_CNT _ => False
  | _ => True
  end.

(** A window that starts at a multiple of the page size. *)
Definition aligned (fv : Z) : Prop := fv mod SETTINGS_LIST_ROWS = 0.

(** The members of the widget before [ro]. *)
Definition same_frame (w w' : setting_widget) : Prop :=
  w_settings w' = w_settings w /\ total_rows w' = total_rows w
  /\ first_visible w' = first_visible w.

(** What holds of the widget in every state of a session. *)
Definition widget_inv (w : setting_widget) : Prop :=
  aligned (first_visible w) /\ is_u32 (first_visible w)
  /\ ro_valid (ro w)
  /\ (editing w = true -> exists d, ro w = SETTING_ROW d).

(** How [current] moves in one turn of the loop. *)
Definition moved (total cur cur' : Z) : Prop :=
  cur' = cur
  \/ (cur < u32 (total - 1) /\ cur' = u32 (cur + 1))
  \/ (cur > 0 /\ cur' = u32 (cur - 1)).

(** The rows that lead to another scope. *)
Definition structural (r : row_object) : Prop :=
  match r with
  | PARENT_ROW _ | CHILD_ROW _ => True
  | _ => False
  end.

(** The keys that the [switch] of the Viewing state does not take for a
    move, a delete or the exit: on a Setting row they ask to edit. *)
Definition edit_key (key : Z) : Prop :=
  key <> KEY_DOWN P /\ key <> KEY_UP P /\ key <> CTRL_D P /\ key <> CTRL_X P.

(** ** The canonical order of rows *)

(** A descriptor is relevant to a scope if its tag type equals the
    scope's own tag type, or it is relevant to a child of that scope. *)
Inductive Relevant (d : setting) : settings -> Prop :=
| relevant_own s :
    TAG_TYPE P (tag d) = TAG_TYPE P (tag_magic s) -> Relevant d s
| relevant_child s c :
    In c (children s) -> Relevant d c -> Relevant d s.

(** A Parent row iff the scope has a parent, then a Child row per
    direct child in child-list order, then a Setting row per relevant
    descriptor in registry order. *)
Definition canonical_rows (s : settings) : list row_object :=
  match parent s with
  | Some p => [PARENT_ROW p]
  | None => []
  end
  ++ map CHILD_ROW (children s)
  ++ map SETTING_ROW (filter (relevant s) (SETTINGS P)).

(** The true row count of a scope. *)
Definition true_count (s : settings) : Z :=
  Z.of_nat (List.length (canonical_rows s)).

End Console.

Arguments Widget {P}.
Arguments w_settings {P}.
Arguments total_rows {P}.
Arguments first_visible {P}.
Arguments ro {P}.
Arguments scr_row {P}.
Arguments scr_col {P}.
Arguments editbox {P}.
Arguments editing {P}.
Arguments value {P}.
Arguments Loop {P}.
Arguments widget {P}.
Arguments current {P}.
Arguments lstore {P}.
Arguments screen {P}.
Arguments Continue {P}.
Arguments Return {P}.
Arguments Break {P}.
Arguments Leave {P}.
Arguments Returned {P}.
Arguments Blocked {P}.
Arguments Exited {P}.
Arguments Waiting {P}.
Arguments same_frame {P}.
Arguments widget_inv {P}.

(** ** A small platform to run the console on *)

Module Demo.

(** The store: the values set, by block name and setting name. *)
Definition demo_store : Type := list (string * string * string).

Fixpoint lookup (st : demo_store) (blk key : string) : option string :=
  match st with
  | [] => None
  | (b, k, v) :: st' =>
      if String.eqb b blk && String.eqb k key then Some v
      else lookup st' blk key
  end.

Definition demo_fetch (st : demo_store) (s : settings) (d : setting) : Z :=
  match lookup st (name s) (setting_name d) with
  | Some v => Z.of_nat (String.length v)
  | None => -2
  end.

Definition demo_fetchf (st : demo_store) (s : settings) (d : setting)
  (buf : string) (len : Z) : Z * string :=
  match lookup st (name s) (setting_name d) with
  | Some v => (Z.of_nat (String.length v), v)
  | None => (-2, buf)
  end.

(** A store that refuses the value "bad" and changes nothing then. *)
Definition demo_storef (st : demo_store) (s : settings) (d : setting)
  (v : string) : Z * demo_store :=
  if String.eqb v "bad" then (22, st)
  else (0, (name s, setting_name d, v) :: st).

Definition demo_delete (st : demo_store) (s : settings) (d : setting)
  : demo_store :=
  filter (fun e => negb (String.eqb (fst (fst e)) (name s)
                         && String.eqb (snd (fst e)) (setting_name d))) st.

(** A line editor that appends printable keys and hands the others
    back. *)
Definition demo_edit (box : Z) (v : string) (key : Z) : Z * (Z * string) :=
  if (32 <=? key) && (key <? 127)
  then (0, (box + 1,
            (v ++ String (ascii_of_nat (Z.to_nat key)) EmptyString)%string))
  else (key, (box, v)).

Definition A : setting := Setting "a" "first" 1.
Definition B : setting := Setting "b" "second" 2.
Definition D : setting := Setting "d" "of the net device" (2 ^ 24 + 1).
Definition E : setting := Setting "e" "fixed" (2 ^ 23 + 3).

Definition demo_keys_distinct : NoDup [13; 10; 3; 4; 24; 258; 259].
Proof.
  repeat (constructor;
          [ simpl; intros H;
            repeat (destruct H as [H | H]; [discriminate H |]); exact H | ]).
  constructor.
Defined.

Definition demo : platform :=
  {| TAG_TYPE := fun t => Z.shiftr t 24;
     TAG_READONLY := fun t => Z.testbit t 23;
     SETTINGS := [A; B; D; E];
     store := demo_store;
     fetch_setting := demo_fetch;
     fetch_setting_ex := fun st s d _ => demo_fetch st s d;
     fetchf_setting := demo_fetchf;
     storef_setting := demo_storef;
     delete_setting := demo_delete;
     strerror := fun rc => if rc =? 22 then "Invalid argument"%string
                           else "Error"%string;
     settings_name := name;
     edit_box := Z;
     zero_edit_box := 0;
     init_editbox := fun v _ _ _ _ _ => Z.of_nat (String.length v);
     edit_editbox := demo_edit;
     CR := 13;
     LF := 10;
     CTRL_C := 3;
     CTRL_D := 4;
     CTRL_X := 24;
     KEY_DOWN := 258;
     KEY_UP := 259;
     keys_distinct := demo_keys_distinct |}.

(** The blocks: a root holding the net device [X], which holds [Y] and
    [Z]; and a block no setting is relevant to. *)
Definition Yb : settings_block := Block "y" (3 * 2 ^ 24) [].
Definition Zb : settings_block := Block "z" (3 * 2 ^ 24) [].
Definition Xb : settings_block := Block "net0" (2 ^ 24) [Yb; Zb].
Definition Pb : settings_block := Block "" 0 [Xb].

Definition Pscope : settings := Scope None Pb.
Definition Xscope : settings := Scope (Some Pscope) Xb.
Definition Yscope : settings := Scope (Some Xscope) Yb.
Definition Zscope : settings := Scope (Some Xscope) Zb.
Definition lonely : settings := Scope None (Block "lonely" (9 * 2 ^ 24) []).


(** The widget of the root as [init_widget] hands it to [reveal]. *)
Definition fresh_widget : setting_widget demo :=
  {| w_settings := Pscope;
     total_rows := 5;
     first_visible := SETTINGS_LIST_ROWS;
     ro := ROW_CNT 0;
     scr_row := 0;
     scr_col := 0;
     editbox := zero_edit_box demo;
     editing := false;
     value := EmptyString |}.

(** A store that holds a value for [A] at the root. *)
Definition a_is_set : demo_store := [(""%string, "a"%string, "1"%string)].

(** The state in which [main_loop] on the root waits once it has read
    [keys]. *)
Definition state_after (st : demo_store) (keys : list Z) : loop_state demo :=
  match main_loop demo Pscope st [] keys with
  | Ok (Blocked l) => l
  | _ => Loop fresh_widget 0 st []
  end.

(** At the start: row 0, the child [X], is selected. *)
Definition at_start_of_root : loop_state demo :=
  Eval vm_compute in state_after [] [].

(** After two Down keys: row 2 is selected. *)
Definition on_row_2 : loop_state demo :=
  Eval vm_compute in state_after [] [258; 258].

(** After a Down key and the keys b, a, d: editing [A] with "bad". *)
Definition editing_bad : loop_state demo :=
  Eval vm_compute in state_after [] [258; 98; 97; 100].

(** After a Down key with [A] set: row 1, the setting [A], is selected. *)
Definition on_set_a : loop_state demo :=
  Eval vm_compute in state_after a_is_set [258].

(** After the delete key in that state. *)
Definition after_delete : loop_state demo :=
  Eval vm_compute in state_after a_is_set [258; 4].

(** The widget after the first [reveal] and what that call drew. *)
Definition revealed : setting_widget demo * list (event demo) :=
  Eval vm_compute in
    match reveal demo [] fresh_widget 0 with
    | Ok r => r
    | _ => (fresh_widget, [])
    end.

End Demo.

(** * The scriptlet (scriptlet.c) *)

(** ** The script buffer *)

(** [char script[256]] as the bytes it holds; [line], [from] and [to]
    are offsets into it. *)
Definition is_nul (c : ascii) : bool := Ascii.eqb c zero.
Definition is_backslash (c : ascii) : bool := Ascii.eqb c "\"%char.
Definition is_n (c : ascii) : bool := Ascii.eqb c "n"%char.

(** [*p]: a read outside the buffer is a [Fault]. *)
Definition peek (b : list ascii) (i : nat) : result ascii :=
  match nth_error b i with
  | Some c => Ok c
  | None => Fault
  end.

(** [*p = c]: a write outside the buffer is a [Fault]. *)
Fixpoint poke (b : list ascii) (i : nat) (c : ascii) : result (list ascii) :=
  match b, i with
  | [], _ => Fault
  | _ :: b', O => Ok (c :: b')
  | x :: b', S i' => b'' <- poke b' i' c ;; Ok (x :: b'')
  end.

(** The C string that starts a list of bytes: the bytes before the first
    NUL; without one the read runs off the buffer. *)
Fixpoint cstring (l : list ascii) : result (list ascii) :=
  match l with
  | [] => Fault
  | c :: l' =>
      if is_nul c then Ok []
      else s <- cstring l' ;; Ok (c :: s)
  end.

(** [system ( line )]: the command is the C string at offset [line]; it
    is added to the commands run so far. *)
Definition system (b : list ascii) (line : nat) (ran : list (list ascii))
  : result (list (list ascii)) :=
  cmd <- cstring (skipn line b) ;;
  Ok (ran ++ [cmd]).

(** ** scriptlet_exec *)

(** How the [while ( *from )] loop leaves the buffer, [line], [to] and
    the commands run. *)
Record script_state : Type := Script {
  sc_buf : list ascii;
  sc_line : nat;
  sc_to : nat;
  sc_ran : list (list ascii)
}.

(** [while ( *from ) { ... }]: every turn moves [from] on, so one unit
    of [fuel] per byte of the buffer and one more is never used up. *)
Fixpoint scriptlet_loop (fuel : nat) (b : list ascii) (line from to : nat)
  (ran : list (list ascii)) : result script_state :=
  match fuel with
  | O => Hang
  | S fuel' =>
      c <- peek b from ;;
      if is_nul c then Ok (Script b line to ran)
      else if is_backslash c then
        (* Handle escape sequences. *)
        let from := S from in
        c1 <- peek b from ;;
        (* backslash at end of script is ignored. *)
        if is_nul c1 then Ok (Script b line to ran)
        else if is_n c1 then
          (* backslash-n translates as end-of-line. *)
          b' <- poke b to zero ;;
          ran' <- system b' line ran ;;
          scriptlet_loop fuel' b' (S to) (S from) (S to) ran'
        else
          b' <- poke b to c1 ;;
          scriptlet_loop fuel' b' line (S from) (S to) ran
      else
        b' <- poke b to c ;;
        scriptlet_loop fuel' b' line (S from) (S to) ran
  end.

(** [scriptlet_exec], on what [fetch_setting ( NULL, &scriptlet_setting,
    script, sizeof ( script ) )] returns and leaves in [script]: the
    commands handed to [system], in order.  The debug output is left
    out. *)
Definition scriptlet_exec (rc : Z) (script : list ascii)
  : result (list (list ascii)) :=
  (* Find a startup scriptlet, if one has been set. *)
  if rc <=? 0 then Ok []
  else
    (* Convert escape sequences, and execute each line of the script. *)
    s <- scriptlet_loop (S (List.length script)) script 0 0 0 [] ;;
    (* Execute the last line of the script. *)
    b' <- poke (sc_buf s) (sc_to s) zero ;;
    system b' (sc_line s) (sc_ran s).

(** The loop and the last line after it. *)
Definition scriptlet_from (fuel : nat) (b : list ascii) (line from to : nat)
  (ran : list (list ascii)) : result (list (list ascii)) :=
  s <- scriptlet_loop fuel b line from to ran ;;
  b' <- poke (sc_buf s) (sc_to s) zero ;;
  system b' (sc_line s) (sc_ran s).

(** What the run gives: the lines, or a [Fault] when the script has no
    NUL after it. *)
Definition outcome_after (suffix : list ascii) (lines : list (list ascii))
  : result (list (list ascii)) :=
  match suffix with
  | [] => Fault
  | _ :: _ => Ok lines
  end.

(** ** What the comment of scriptlet_exec says *)

(** Script lines are separated by the backslash-n escape sequence; other
    escape sequences are translated from backslash-X to X; a backslash
    at the end of the script is ignored.  [cur] is the line read so
    far. *)
Fixpoint unescape (s : list ascii) (cur : list ascii) : list (list ascii) :=
  match s with
  | [] => [cur]
  | c :: s' =>
      if is_backslash c then
        match s' with
        | [] => [cur]
        | c1 :: s'' =>
            if is_n c1 then cur :: unescape s'' []
            else unescape s'' (cur ++ [c1])
        end
      else unescape s' (cur ++ [c])
  end.

(** A line written so that it reads back as itself: every backslash
    doubled. *)
Fixpoint escape_line (l : list ascii) : list ascii :=
  match l with
  | [] => []
  | c :: l' =>
      if is_backslash c then c :: c :: escape_line l'
      else c :: escape_line l'
  end.

(** Lines written as one script: each escaped, backslash-n between
    them. *)
Fixpoint escape (first : list ascii) (more : list (list ascii))
  : list ascii :=
  match more with
  | [] => escape_line first
  | l :: more' =>
      escape_line first ++ "\"%char :: "n"%char :: escape l more'
  end.

(** No NUL among the bytes. *)
Definition nul_free (l : list ascii) : Prop :=
  Forall (fun c => is_nul c = false) l.

(** * The console without navigation rows (hci/tui/settings_ui.c) *)

Section FlatConsole.

Variable P : platform.

(** [relevant_setting]: the n'th relevant setting, or the count of the
    relevant settings cast to a pointer ([inr]).  [relevant] is the same
    function in both consoles. *)
Fixpoint relevant_setting_from (s : settings) (l : list setting)
  (cnt n : Z) : setting + Z :=
  match l with
  | [] => inr cnt
  | d :: l' =>
      if relevant P s d then
        if cnt =? n then inl d
        else relevant_setting_from s l' (u32 (cnt + 1)) n
      else relevant_setting_from s l' cnt n
  end.

Definition relevant_setting (s : settings) (n : Z) : setting + Z :=
  relevant_setting_from s (SETTINGS P) 0 n.

(** [relevant_setting_cnt]: the pointer that [relevant_setting] returns
    for index UINT_MAX, cast back to a count; [None] when it is the
    address of a setting. *)
Definition relevant_setting_cnt (s : settings) : option Z :=
  match relevant_setting s UINT_MAX with
  | inr cnt => Some cnt
  | inl _ => None
  end.

(** The rows that the navigating console puts before the settings: the
    parent, if any, and the children. *)
Definition structural_count (s : settings) : Z :=
  (match parent s with Some _ => 1 | None => 0 end)
  + Z.of_nat (List.length (children s)).

(** The relevant settings of a scope, in table order. *)
Definition relevant_settings (s : settings) : list setting :=
  filter (relevant P s) (SETTINGS P).

End FlatConsole.

(** * More predicates on loop states *)

Section LoopPredicates.

Variable P : platform.

(** The widget shows the row at the selected index, inside the window
    and on the screen row of that index. *)
Definition coherent (l : loop_state P) : Prop :=
  is_u32 (current l)
  /\ first_visible (widget l) <= current l
     < first_visible (widget l) + SETTINGS_LIST_ROWS
  /\ scr_row (widget l)
     = SETTINGS_LIST_ROW + (current l - first_visible (widget l))
  /\ scr_col (widget l) = SETTINGS_LIST_COL
  /\ ro (widget l) = row P (w_settings (widget l)) (current l).

(** A Setting row that may be edited. *)
Definition editable (r : row_object) : Prop :=
  exists d, r = SETTING_ROW d /\ TAG_READONLY P (tag d) = false.

End LoopPredicates.

Arguments coherent {P}.

(** * More samples *)

Module Samples.

(** A scriptlet of two lines, the second with an escaped backslash. *)
Definition two_lines : list ascii :=
  list_ascii_of_string "dhcp net0\nboot a\\b".

(** The bytes of [script] when the store holds [two_lines] and NUL. *)
Definition script_buffer : list ascii :=
  two_lines ++ zero :: list_ascii_of_string "left over".

(** What Enter on the child row of the root writes to the screen. *)
Definition visit_screen : list (event Demo.demo) :=
  Eval vm_compute in
    match main_loop_iter Demo.demo Demo.at_start_of_root 13 with
    | Ok (Return _ _ scr) => scr
    | _ => []
    end.

(** The state after a Down key at the start of the root. *)
Definition on_row_1 : loop_state Demo.demo :=
  Eval vm_compute in Demo.state_after [] [258].

End Samples.


(** * Properties *)

(** Take a successful [bind] apart. *)
Ltac bind_ok H :=
  match type of H with
  | bind ?m _ = Ok _ =>
      let a := fresh "a" in
      let E := fresh "E" in
      destruct m as [a | |] eqn:E; cbn [bind] in H; [| discriminate H ..]
  end.


(** ** Unsigned arithmetic *)

Lemma u32_range (x : Z) : is_u32 (u32 x).
Proof. unfold is_u32, u32. apply Z.mod_pos_bound. lia. Qed.

Lemma u32_small (x : Z) : is_u32 x -> u32 x = x.
Proof. unfold is_u32, u32. intros H. apply Z.mod_small. exact H. Qed.

Lemma u32_wrap_below (x : Z) : - 2 ^ 32 <= x < 0 -> u32 x = x + 2 ^ 32.
Proof.
  intros H. unfold u32.
  rewrite <- (Z.mod_small (x + 2 ^ 32) (2 ^ 32)) by lia.
  replace (x + 2 ^ 32) with (x + 1 * 2 ^ 32) by lia.
  now rewrite Z.mod_add by lia.
Qed.

Lemma u32_wrap_above (x : Z) :
  2 ^ 32 <= x < 2 * 2 ^ 32 -> u32 x = x - 2 ^ 32.
Proof.
  intros H. unfold u32.
  rewrite <- (Z.mod_small (x - 2 ^ 32) (2 ^ 32)) by lia.
  replace (x - 2 ^ 32) with (x + (-1) * 2 ^ 32) by lia.
  now rewrite Z.mod_add by lia.
Qed.

Section RowEnumerator.

Variable P : platform.

(** ** The row enumerator *)

Lemma row_children_spec (l : list settings) :
  forall cnt n,
    0 <= cnt <= n -> cnt + Z.of_nat (List.length l) < 2 ^ 32 ->
    row_children l cnt n =
      match nth_error l (Z.to_nat (n - cnt)) with
      | Some c => inl (CHILD_ROW c)
      | None => inr (cnt + Z.of_nat (List.length l))
      end.
Proof.
  induction l as [| c l IH]; intros cnt n Hc Hb; cbn [row_children].
  - rewrite nth_error_nil. cbn. f_equal. lia.
  - cbn [List.length] in Hb. destruct (Z.eqb_spec cnt n) as [-> | Hne].
    + now rewrite Z.sub_diag.
    + rewrite u32_small by (unfold is_u32; lia).
      rewrite IH by lia.
      replace (Z.to_nat (n - cnt)) with (S (Z.to_nat (n - (cnt + 1)))) by lia.
      cbn [nth_error List.length].
      destruct (nth_error l _); [reflexivity | f_equal; lia].
Qed.

Lemma row_settings_spec (s : settings) (l : list setting) :
  forall cnt n,
    0 <= cnt <= n ->
    cnt + Z.of_nat (List.length (filter (relevant P s) l)) < 2 ^ 32 ->
    row_settings P s l cnt n =
      match nth_error (filter (relevant P s) l) (Z.to_nat (n - cnt)) with
      | Some d => inl (SETTING_ROW d)
      | None => inr (cnt + Z.of_nat (List.length (filter (relevant P s) l)))
      end.
Proof.
  induction l as [| d l IH]; intros cnt n Hc Hb;
    cbn [row_settings filter].
  - rewrite nth_error_nil. cbn. f_equal. lia.
  - cbn [filter] in Hb. destruct (relevant P s d).
    + cbn [List.length] in Hb. destruct (Z.eqb_spec cnt n) as [-> | Hne].
      * now rewrite Z.sub_diag.
      * rewrite u32_small by (unfold is_u32; lia).
        rewrite IH by lia.
        replace (Z.to_nat (n - cnt))
          with (S (Z.to_nat (n - (cnt + 1)))) by lia.
        cbn [nth_error List.length].
        destruct (nth_error _ _); [reflexivity | f_equal; lia].
    + now apply IH.
Qed.

(** Induction on blocks that reaches the children. *)
Lemma settings_block_rect' (Q : settings_block -> Prop)
  (step : forall nm magic kids,
      Forall Q kids -> Q (Block nm magic kids)) :
  forall b, Q b.
Proof.
  fix self 1. intros [nm magic kids]. apply step.
  induction kids as [| k kids IH]; constructor; [apply self | exact IH].
Qed.

Lemma relevant_unfold (s : settings) (d : setting) :
  relevant P s d =
    (TAG_TYPE P (tag d) =? TAG_TYPE P (tag_magic s))
    || existsb (fun child => relevant P child d) (children s).
Proof.
  destruct s as [up [nm magic kids]].
  unfold relevant, children, tag_magic. cbn.
  destruct (_ =? _); [reflexivity |]. cbn.
  generalize (Some (Scope up (Block nm magic kids))). intros par.
  induction kids as [| k kids IH]; [reflexivity |]. cbn. now rewrite IH.
Qed.

Lemma relevant_Relevant (d : setting) (s : settings) :
  relevant P s d = true <-> Relevant P d s.
Proof.
  split.
  - destruct s as [up b]. revert up.
    induction b as [nm magic kids IH] using settings_block_rect'.
    intros up. rewrite relevant_unfold.
    intros H. apply orb_true_iff in H. destruct H as [H | H].
    + apply relevant_own. now apply Z.eqb_eq.
    + apply existsb_exists in H. destruct H as [c [Hin Hc]].
      apply relevant_child with (c := c); [exact Hin |].
      unfold children in Hin. cbn in Hin. apply in_map_iff in Hin.
      destruct Hin as [k [<- Hk]].
      rewrite Forall_forall in IH. now apply IH.
  - induction 1 as [s Hown | s c Hin _ IH]; rewrite relevant_unfold.
    + apply orb_true_iff. left. now apply Z.eqb_eq.
    + apply orb_true_iff. right. apply existsb_exists. now exists c.
Qed.

Lemma row_nth_canonical (s : settings) (n : Z) :
  is_u32 n -> true_count P s < 2 ^ 32 ->
  row P s n =
    match nth_error (canonical_rows P s) (Z.to_nat n) with
    | Some r => r
    | None => ROW_CNT (true_count P s)
    end.
Proof.
  intros Hn Hcount.
  unfold is_u32 in Hn. unfold true_count, canonical_rows in *.
  unfold row.
  set (kids := children s) in *.
  set (ds := filter (relevant P s) (SETTINGS P)) in *.
  rewrite !length_app, !length_map in Hcount.
  assert (Hscan : forall cnt, 0 <= cnt <= n ->
            cnt + Z.of_nat (List.length kids) + Z.of_nat (List.length ds)
              < 2 ^ 32 ->
            match row_children kids cnt n with
            | inl r => r
            | inr cnt' =>
                match row_settings P s (SETTINGS P) cnt' n with
                | inl r => r
                | inr cnt'' => ROW_CNT cnt''
                end
            end =
            match nth_error (map CHILD_ROW kids ++ map SETTING_ROW ds)
                    (Z.to_nat (n - cnt)) with
            | Some r => r
            | None => ROW_CNT (cnt + Z.of_nat (List.length kids)
                               + Z.of_nat (List.length ds))
            end).
  { intros cnt Hc Hb. rewrite row_children_spec by lia.
    destruct (nth_error kids (Z.to_nat (n - cnt))) as [c |] eqn:Hk.
    - rewrite nth_error_app1
        by (rewrite length_map; apply nth_error_Some; congruence).
      now rewrite nth_error_map, Hk.
    - apply nth_error_None in Hk.
      rewrite nth_error_app2 by (rewrite length_map; exact Hk).
      rewrite length_map, nth_error_map.
      rewrite row_settings_spec by (fold ds; lia). fold ds.
      replace (Z.to_nat (n - (cnt + Z.of_nat (List.length kids))))
        with (Z.to_nat (n - cnt) - List.length kids)%nat by lia.
      now destruct (nth_error ds _). }
  destruct (parent s) as [p |]; cbn [app List.length] in *.
  - destruct (Z.eqb_spec 0 n) as [<- | Hne]; [reflexivity |].
    rewrite u32_small by (unfold is_u32; lia).
    rewrite Hscan by lia.
    replace (Z.to_nat n) with (S (Z.to_nat (n - (0 + 1)))) by lia.
    cbn [nth_error]. destruct (nth_error _ _); [reflexivity |].
    f_equal. rewrite length_app, !length_map. lia.
  - rewrite Hscan by lia. rewrite Z.sub_0_r.
    destruct (nth_error _ _); [reflexivity |].
    f_equal. rewrite length_app, !length_map. lia.
Qed.

(** C1: [row s n] is the [n]-th row of the canonical order -- the Parent
    row first iff the scope has a parent, then the Child rows in
    child-list order, then the Setting rows of the relevant descriptors
    in registry order, relevance being the recursive tag-type match
    over the subtree -- and a Count row carrying the true row count once
    [n] reaches or exceeds it. *)
Theorem row_canonical_order (s : settings) (n : Z) :
  is_u32 n -> true_count P s < 2 ^ 32 ->
  row P s n =
    match nth_error (canonical_rows P s) (Z.to_nat n) with
    | Some r => r
    | None => ROW_CNT (true_count P s)
    end
  /\ (forall d, relevant P s d = true <-> Relevant P d s).
Proof.
  intros Hn Hcount. split.
  - now apply row_nth_canonical.
  - intros d. apply relevant_Relevant.
Qed.

End RowEnumerator.

(** The net device [Xscope] has a parent, two children and one relevant
    setting: row 3 is that setting and row 4 is the count. *)
Lemma row_canonical_order_example :
  is_u32 3 /\ true_count Demo.demo Demo.Xscope < 2 ^ 32 /\
  row Demo.demo Demo.Xscope 3 = SETTING_ROW Demo.D /\
  row Demo.demo Demo.Xscope 4 = ROW_CNT 4.
Proof.
  assert (H3 : is_u32 3) by (unfold is_u32; lia).
  assert (H4 : is_u32 4) by (unfold is_u32; lia).
  assert (Hc : true_count Demo.demo Demo.Xscope < 2 ^ 32)
    by (vm_compute; reflexivity).
  split; [exact H3 |]. split; [exact Hc |]. split.
  - exact (eq_trans
             (proj1 (row_canonical_order Demo.demo Demo.Xscope 3 H3 Hc))
             eq_refl).
  - exact (eq_trans
             (proj1 (row_canonical_order Demo.demo Demo.Xscope 4 H4 Hc))
             eq_refl).
Defined.

(** ** Bounded iteration and [while] loops *)

Lemma iterate_nat_add {A B : Type} (step : A -> A + B) (i j : nat) :
  forall a,
    iterate_nat (i + j) step a =
      match iterate_nat i step a with
      | inl a' => iterate_nat j step a'
      | inr b => inr b
      end.
Proof.
  induction i as [| i IH]; intros a; cbn [Nat.add iterate_nat].
  - reflexivity.
  - destruct (step a); [apply IH | reflexivity].
Qed.

Lemma iterate_unary {A B : Type} (step : A -> A + B) (fuel : positive) :
  forall a, iterate fuel step a = iterate_nat (Pos.to_nat fuel) step a.
Proof.
  induction fuel as [p IH | p IH |]; intros a; cbn [iterate].
  - rewrite Pos2Nat.inj_xI. cbn [iterate_nat].
    destruct (step a) as [a' | b]; [| reflexivity].
    replace (2 * Pos.to_nat p)%nat with (Pos.to_nat p + Pos.to_nat p)%nat
      by lia.
    rewrite iterate_nat_add, <- IH.
    destruct (iterate p step a'); [apply IH | reflexivity].
  - rewrite Pos2Nat.inj_xO.
    replace (2 * Pos.to_nat p)%nat with (Pos.to_nat p + Pos.to_nat p)%nat
      by lia.
    rewrite iterate_nat_add, <- IH.
    destruct (iterate p step a); [apply IH | reflexivity].
  - change (Pos.to_nat 1) with 1%nat. cbn [iterate_nat].
    destruct (step a); reflexivity.
Qed.

Lemma while_loop_unary (cond : Z -> bool) (body : Z -> Z) (x : Z) :
  while_loop cond body x =
    match iterate_nat (Pos.to_nat loop_fuel) (while_step cond body) x with
    | inr v => Ok v
    | inl _ => Hang
    end.
Proof. unfold while_loop. now rewrite iterate_unary. Qed.

(** Where a loop that exits stands: the test fails there, and the value
    is the one it started from or the body's result on a value that
    passed the test; an invariant of the body holds throughout. *)
Lemma while_exit (Q : Z -> Prop) (cond : Z -> bool) (body : Z -> Z) :
  (forall v, Q v -> cond v = true -> Q (body v)) ->
  forall x v,
    Q x -> while_loop cond body x = Ok v ->
    Q v /\ cond v = false /\
    (v = x \/ exists prev, Q prev /\ cond prev = true /\ v = body prev).
Proof.
  intros Hbody x v Hx. rewrite while_loop_unary.
  generalize (Pos.to_nat loop_fuel). intros k.
  destruct (iterate_nat k (while_step cond body) x) as [a | b] eqn:Hrun;
    [discriminate |].
  intros Hv. injection Hv as ->.
  revert x Hx Hrun. induction k as [| k IH]; intros x Hx Hrun;
    cbn [iterate_nat] in Hrun; [discriminate |].
  unfold while_step at 1 in Hrun. destruct (cond x) eqn:Hc.
  - destruct (IH (body x) (Hbody x Hx Hc) Hrun) as [Hq [Hf Hwhere]].
    split; [exact Hq |]. split; [exact Hf |]. right.
    destruct Hwhere as [-> | Hprev]; [| exact Hprev].
    exists x. auto.
  - injection Hrun as <-. auto.
Qed.

(** A loop whose number of turns left, [dist], shrinks with every turn
    exits when that number is below 2^28. *)
Lemma while_runs (Q : Z -> Prop) (cond : Z -> bool) (body : Z -> Z)
  (dist : Z -> Z) :
  (forall v, Q v -> cond v = true ->
             Q (body v) /\ 0 <= dist (body v) < dist v) ->
  forall x,
    Q x -> 0 <= dist x < 2 ^ 28 ->
    exists v, while_loop cond body x = Ok v.
Proof.
  intros Hbody x Hq Hx. rewrite while_loop_unary.
  assert (Hfuel : 0 <= dist x < Z.of_nat (Pos.to_nat loop_fuel)).
  { rewrite positive_nat_Z. exact Hx. }
  revert Hfuel. generalize (Pos.to_nat loop_fuel). intros k. clear Hx.
  revert x Hq. induction k as [| k IH]; intros x Hq Hx; cbn [iterate_nat].
  - lia.
  - unfold while_step at 1. destruct (cond x) eqn:Hc.
    + destruct (Hbody x Hq Hc) as [Hq' Hd]. apply IH; [exact Hq' | lia].
    + now exists x.
Qed.


(** ** The fuel of the loops is enough *)

Lemma iterate_nat_prefix {A B : Type} (step : A -> A + B) (i j : nat) (a y : A) :
  iterate_nat (i + j) step a = inl y ->
  exists y', iterate_nat i step a = inl y'.
Proof.
  rewrite iterate_nat_add.
  destruct (iterate_nat i step a) as [y' | b]; [eauto | discriminate].
Qed.

(** A loop that moves an [unsigned int] by a fixed [d] and is still
    running after [k] turns stands at the start moved by [k * d]. *)
Lemma stepping_loop_position (cond : Z -> bool) (d : Z) (k : nat) :
  forall x y,
    is_u32 x ->
    iterate_nat k (while_step cond (fun v => u32 (v + d))) x = inl y ->
    y = u32 (x + Z.of_nat k * d).
Proof.
  induction k as [| k IH]; intros x y Hx H; cbn [iterate_nat] in H.
  - injection H as <-. rewrite Z.add_0_r. symmetry. now apply u32_small.
  - unfold while_step at 1 in H. destruct (cond x); [| discriminate H].
    apply IH in H; [| apply u32_range]. subst y. unfold u32.
    rewrite Zplus_mod_idemp_l. f_equal. lia.
Qed.

(** When the step is 16 up or down, a loop that is still running after
    2^28 turns is back where it started, and so runs for ever: the
    result [Hang] of [while_loop] is never given to a loop that exits. *)
Lemma stepping_loop_hangs (cond : Z -> bool) (d : Z) (x : Z) :
  is_u32 x -> (2 ^ 28 * d) mod 2 ^ 32 = 0 ->
  while_loop cond (fun v => u32 (v + d)) x = Hang ->
  forall k,
    exists y, iterate_nat k (while_step cond (fun v => u32 (v + d))) x
              = inl y.
Proof.
  intros Hx Hd. rewrite while_loop_unary.
  assert (HK : Z.of_nat (Pos.to_nat loop_fuel) = 2 ^ 28)
    by (rewrite positive_nat_Z; reflexivity).
  revert HK. generalize (Pos.to_nat loop_fuel). intros K HK Hrun.
  set (step := while_step cond (fun v => u32 (v + d))) in *.
  destruct (iterate_nat K step x) as [y |] eqn:Hy; [| discriminate Hrun].
  assert (Hback : y = x).
  { apply stepping_loop_position in Hy; [| exact Hx]. subst y.
    rewrite HK. unfold u32. rewrite <- Zplus_mod_idemp_r, Hd, Z.add_0_r.
    now apply Z.mod_small. }
  subst y.
  assert (Hrounds : forall m, iterate_nat (m * K) step x = inl x).
  { induction m as [| m IH]; [reflexivity |].
    cbn [Nat.mul]. now rewrite iterate_nat_add, Hy. }
  intros k. apply (iterate_nat_prefix step k (k * K - k) x x).
  replace (k + (k * K - k))%nat with (k * K)%nat by nia.
  apply Hrounds.
Qed.

Section ScrollWindow.

Variable P : platform.

Lemma aligned_u32 (x : Z) : aligned x -> aligned (u32 x).
Proof.
  unfold aligned, u32, SETTINGS_LIST_ROWS. intros H.
  rewrite Z.mod_mod_divide; [exact H |].
  exists (2 ^ 28). reflexivity.
Qed.

Lemma aligned_up (x : Z) : aligned x -> aligned (u32 (x + SETTINGS_LIST_ROWS)).
Proof.
  intros H. apply aligned_u32. unfold aligned, SETTINGS_LIST_ROWS in *.
  replace (x + 16) with (x + 1 * 16) by lia. now rewrite Z.mod_add by lia.
Qed.

Lemma aligned_down (x : Z) :
  aligned x -> aligned (u32 (x - SETTINGS_LIST_ROWS)).
Proof.
  intros H. apply aligned_u32. unfold aligned, SETTINGS_LIST_ROWS in *.
  replace (x - 16) with (x + (-1) * 16) by lia. now rewrite Z.mod_add by lia.
Qed.

(** The unsigned test of [reveal] against the window it stands for. *)
Lemma on_screen_window (fv n : Z) :
  is_u32 n -> 0 <= fv <= 2 ^ 32 - SETTINGS_LIST_ROWS ->
  on_screen fv n = (fv <=? n) && (n <? fv + SETTINGS_LIST_ROWS).
Proof.
  unfold is_u32, on_screen, SETTINGS_LIST_ROWS. intros Hn Hfv.
  destruct (Z.leb_spec fv n) as [Hle | Hlt]; cbn [andb].
  - rewrite u32_small by (unfold is_u32; lia).
    destruct (Z.ltb_spec (n - fv) 16), (Z.ltb_spec n (fv + 16));
      try reflexivity; lia.
  - rewrite u32_wrap_below by lia. apply Z.ltb_ge. lia.
Qed.

(** Where the two loops leave [first_visible], when they exit. *)
Lemma jump_scroll_exit (Q : Z -> Prop) (fv n fv' : Z) :
  (forall v, Q v -> Q (u32 (v + SETTINGS_LIST_ROWS))) ->
  (forall v, Q v -> Q (u32 (v - SETTINGS_LIST_ROWS))) ->
  is_u32 n -> is_u32 fv -> Q fv ->
  jump_scroll fv n = Ok fv' ->
  Q fv' /\ is_u32 fv' /\ fv' <= n < fv' + SETTINGS_LIST_ROWS.
Proof.
  intros Hup Hdown Hn Hfv Hq. unfold jump_scroll, bind.
  destruct (while_loop (fun v => v <? n) _ fv) as [fv1 | |] eqn:Hup1;
    try discriminate.
  intros Hdown2.
  apply (while_exit (fun v => Q v /\ is_u32 v)) in Hup1;
    [| intros v [Hv _] _; split; [now apply Hup | apply u32_range]
     | now split].
  destruct Hup1 as [[Hq1 Hr1] [Hc1 _]]. apply Z.ltb_ge in Hc1.
  apply (while_exit (fun v => Q v /\ is_u32 v)) in Hdown2;
    [| intros v [Hv _] _; split; [now apply Hdown | apply u32_range]
     | now split].
  destruct Hdown2 as [[Hq2 Hr2] [Hc2 Hwhere]].
  split; [exact Hq2 |]. split; [exact Hr2 |].
  assert (Hle : fv' <= n) by (destruct (Z.gtb_spec fv' n); [discriminate | lia]).
  split; [exact Hle |]. unfold SETTINGS_LIST_ROWS in *.
  destruct Hwhere as [-> | [prev [[_ Hp] [Hgt ->]]]]; [lia |].
  assert (Hgt' : prev > n) by (destruct (Z.gtb_spec prev n); [lia | discriminate]).
  unfold is_u32 in *.
  destruct (Z.le_gt_cases 16 prev) as [Hbig | Hsmall].
  - rewrite u32_small in * by (unfold is_u32; lia). lia.
  - rewrite u32_wrap_below in Hle by lia. lia.
Qed.

(** The two loops exit from an aligned window for every target up to
    2^32 - 16. *)
Lemma jump_scroll_runs (fv n : Z) :
  is_u32 fv -> aligned fv -> 0 <= n <= 2 ^ 32 - SETTINGS_LIST_ROWS ->
  exists fv', jump_scroll fv n = Ok fv'.
Proof.
  unfold is_u32, SETTINGS_LIST_ROWS. intros Hfv Ha Hn. unfold jump_scroll.
  destruct (while_runs (fun v => 0 <= v)
              (fun v => v <? n) (fun v => u32 (v + SETTINGS_LIST_ROWS))
              (fun v => if v <? n then (n - v + 15) / 16 else 0)) with (x := fv)
    as [fv1 Hfv1].
  - unfold SETTINGS_LIST_ROWS. intros v Hv Hc. rewrite Hc.
    apply Z.ltb_lt in Hc.
    rewrite u32_small by (unfold is_u32; lia). split; [lia |].
    destruct (Z.ltb_spec (v + 16) n) as [Hlt | Hge].
    + replace (n - v + 15) with (n - (v + 16) + 15 + 1 * 16) by lia.
      rewrite Z.div_add by lia.
      assert (0 <= (n - (v + 16) + 15) / 16) by (apply Z.div_pos; lia). lia.
    + assert (1 <= (n - v + 15) / 16)
        by (apply Z.div_le_lower_bound; lia). lia.
  - lia.
  - destruct (Z.ltb_spec fv n); [| lia].
    split; [apply Z.div_pos; lia |].
    apply Z.div_lt_upper_bound; lia.
  - assert (Hst : aligned fv1 /\ is_u32 fv1).
    { apply (while_exit (fun v => aligned v /\ is_u32 v)) in Hfv1.
      - tauto.
      - intros v [Hv _] _. split; [now apply aligned_up | apply u32_range].
      - split; [exact Ha | exact Hfv]. }
    destruct Hst as [Ha1 Hr1]. rewrite Hfv1. cbn [bind].
    apply (while_runs (fun v => aligned v /\ is_u32 v)
             (fun v => v >? n) (fun v => u32 (v - SETTINGS_LIST_ROWS))
             (fun v => if v >? n then (v - n + 15) / 16 else 0)).
    + unfold SETTINGS_LIST_ROWS. intros v [Hva Hvr] Hc. rewrite Hc.
      assert (Hgt : v > n) by (destruct (Z.gtb_spec v n); [lia | discriminate]).
      split; [split; [now apply aligned_down | apply u32_range] |].
      assert (H16 : 16 <= v).
      { unfold aligned, SETTINGS_LIST_ROWS in Hva.
        apply Z.mod_divide in Hva; [| lia]. destruct Hva as [q ->]. lia. }
      unfold is_u32 in Hvr. rewrite u32_small by (unfold is_u32; lia).
      destruct (Z.gtb_spec (v - 16) n) as [Hlt | Hge].
      * replace (v - n + 15) with (v - 16 - n + 15 + 1 * 16) by lia.
        rewrite Z.div_add by lia.
        assert (0 <= (v - 16 - n + 15) / 16) by (apply Z.div_pos; lia). lia.
      * assert (1 <= (v - n + 15) / 16)
          by (apply Z.div_le_lower_bound; lia). lia.
    + now split.
    + unfold is_u32 in Hr1. destruct (Z.gtb_spec fv1 n); [| lia].
      split; [apply Z.div_pos; lia |].
      apply Z.div_lt_upper_bound; [lia |].
      unfold aligned, SETTINGS_LIST_ROWS in Ha1.
      apply Z.mod_divide in Ha1; [| lia]. destruct Ha1 as [q ->]. lia.
Qed.



(** ** What the widget functions leave alone *)

Lemma same_frame_refl (w : setting_widget P) : same_frame w w.
Proof. repeat split. Qed.

Lemma same_frame_trans (w1 w2 w3 : setting_widget P) :
  same_frame w1 w2 -> same_frame w2 w3 -> same_frame w1 w3.
Proof. unfold same_frame. intuition congruence. Qed.

Lemma load_setting_frame (st : store P) (w w' : setting_widget P) :
  load_setting P st w = Ok w' ->
  same_frame w w' /\ ro w' = ro w /\ editing w' = false.
Proof.
  unfold load_setting. intros H. bind_ok H. injection H as <-.
  repeat split.
Qed.

Lemma load_setting_valid (st : store P) (w w' : setting_widget P) :
  load_setting P st w = Ok w' -> ro_valid (ro w').
Proof.
  intros H. pose proof (load_setting_frame st w w' H) as [_ [Hro _]].
  rewrite Hro. unfold load_setting in H.
  destruct (ro w); cbn in *; try exact I. discriminate H.
Qed.

Lemma select_setting_valid (st : store P) (w w' : setting_widget P) (i : Z) :
  select_setting P st w i = Ok w' -> ro_valid (ro w').
Proof. unfold select_setting. apply load_setting_valid. Qed.

Lemma select_setting_frame (st : store P) (w w' : setting_widget P) (i : Z) :
  select_setting P st w i = Ok w' ->
  same_frame w w' /\ ro w' = row P (w_settings w) i /\ editing w' = false.
Proof.
  unfold select_setting. intros H. apply load_setting_frame in H.
  exact H.
Qed.

Lemma edit_setting_frame (w : setting_widget P) (key : Z) :
  same_frame w (snd (edit_setting P w key))
  /\ ro (snd (edit_setting P w key)) = ro w
  /\ editing (snd (edit_setting P w key)) = true.
Proof.
  unfold edit_setting. destruct (edit_editbox P _ _ _) as [k [box v]].
  repeat split.
Qed.

Lemma draw_visible_frame (st : store P) (idx : list Z) :
  forall w w' out,
    draw_visible P st w idx = Ok (w', out) -> same_frame w w'.
Proof.
  induction idx as [| i idx IH]; intros w w' out H; cbn [draw_visible] in H.
  - injection H as <- _. apply same_frame_refl.
  - destruct (_ <? _).
    + bind_ok H. bind_ok H. destruct a0 as [w2 out2]. injection H as <- _.
      apply select_setting_frame in E. destruct E as [E _].
      apply IH in E0. eapply same_frame_trans; eassumption.
    + bind_ok H. destruct a as [w2 out2]. injection H as <- _.
      now apply IH in E.
Qed.

(** [reveal] either leaves the widget as it is and draws nothing, or
    moves the window with [jump_scroll] and selects row [n]. *)
Lemma reveal_cases (st : store P) (w w' : setting_widget P) (n : Z)
  (out : list (event P)) :
  reveal P st w n = Ok (w', out) ->
  (on_screen (first_visible w) n = true /\ w' = w /\ out = [])
  \/ (on_screen (first_visible w) n = false
      /\ jump_scroll (first_visible w) n = Ok (first_visible w')
      /\ w_settings w' = w_settings w /\ total_rows w' = total_rows w
      /\ ro w' = row P (w_settings w) n /\ editing w' = false
      /\ ro_valid (ro w')).
Proof.
  unfold reveal. destruct (on_screen _ _) eqn:Hon; intros H.
  - left. injection H as <- <-. auto.
  - right. split; [reflexivity |]. bind_ok H. bind_ok H.
    destruct a0 as [w1 out1]. bind_ok H. injection H as <- _.
    pose proof (select_setting_valid _ _ _ _ E1) as Hvalid.
    apply draw_visible_frame in E0. apply select_setting_frame in E1.
    destruct E0 as [S1 [T1 F1]]. destruct E1 as [[S2 [T2 F2]] [R2 Ed2]].
    cbn in S1, T1, F1.
    repeat split; solve [congruence | exact Hvalid].
Qed.

Lemma reveal_aligned (st : store P) (w w' : setting_widget P) (n : Z)
  (out : list (event P)) :
  is_u32 n -> is_u32 (first_visible w) -> aligned (first_visible w) ->
  reveal P st w n = Ok (w', out) ->
  aligned (first_visible w') /\ is_u32 (first_visible w')
  /\ w_settings w' = w_settings w /\ total_rows w' = total_rows w.
Proof.
  intros Hn Hfv Ha H. apply reveal_cases in H.
  destruct H as [[_ [-> _]] | [_ [Hj [Hs [Ht _]]]]]; [auto |].
  apply (jump_scroll_exit aligned) in Hj;
    auto using aligned_up, aligned_down.
  tauto.
Qed.

(** C7: [reveal] is idempotent.  When a call of [reveal ( widget, n )]
    returns, a second call returns the widget as the first left it --
    window and selection -- and draws nothing, because after the first
    call [n] passes the on-screen test, and lies in
    [first_visible, first_visible + 16) when the window was aligned. *)
Theorem reveal_idempotent (st : store P) (w w1 : setting_widget P) (n : Z)
  (out1 : list (event P)) :
  is_u32 n -> is_u32 (first_visible w) ->
  reveal P st w n = Ok (w1, out1) ->
  reveal P st w1 n = Ok (w1, [])
  /\ on_screen (first_visible w1) n = true
  /\ (aligned (first_visible w) ->
      first_visible w1 <= n < first_visible w1 + SETTINGS_LIST_ROWS).
Proof.
  intros Hn Hfv H.
  assert (Hon : on_screen (first_visible w1) n = true
                /\ (aligned (first_visible w) ->
                    first_visible w1 <= n
                    < first_visible w1 + SETTINGS_LIST_ROWS)).
  { apply reveal_cases in H.
    destruct H as [[Hon [-> _]] | [_ [Hj _]]].
    - split; [exact Hon |]. intros Ha.
      assert (Hfv' : 0 <= first_visible w <= 2 ^ 32 - SETTINGS_LIST_ROWS).
      { unfold aligned, is_u32, SETTINGS_LIST_ROWS in *.
        apply Z.mod_divide in Ha; [| lia].
        destruct Ha as [q Hq]. lia. }
      rewrite on_screen_window in Hon by assumption.
      rewrite andb_true_iff, Z.leb_le, Z.ltb_lt in Hon. exact Hon.
    - apply (jump_scroll_exit (fun _ => True)) in Hj; auto.
      destruct Hj as [_ [Hr Hwin]]. split; [| intros _; exact Hwin].
      unfold on_screen, is_u32, SETTINGS_LIST_ROWS in *.
      rewrite u32_small by (unfold is_u32; lia). apply Z.ltb_lt. lia. }
  split; [| exact Hon]. unfold reveal. now rewrite (proj1 Hon).
Qed.

End ScrollWindow.

Section Navigator.

Variable P : platform.

(** ** Key codes *)

Lemma keys_differ :
  CR P <> LF P /\ CR P <> CTRL_C P /\ CR P <> CTRL_D P /\ CR P <> CTRL_X P
  /\ CR P <> KEY_DOWN P /\ CR P <> KEY_UP P
  /\ LF P <> CTRL_C P /\ LF P <> CTRL_D P /\ LF P <> CTRL_X P
  /\ LF P <> KEY_DOWN P /\ LF P <> KEY_UP P
  /\ CTRL_C P <> CTRL_D P /\ CTRL_C P <> CTRL_X P
  /\ CTRL_C P <> KEY_DOWN P /\ CTRL_C P <> KEY_UP P
  /\ CTRL_D P <> CTRL_X P /\ CTRL_D P <> KEY_DOWN P /\ CTRL_D P <> KEY_UP P
  /\ CTRL_X P <> KEY_DOWN P /\ CTRL_X P <> KEY_UP P
  /\ KEY_DOWN P <> KEY_UP P.
Proof.
  pose proof (keys_distinct P) as HK.
  repeat match goal with
         | H : NoDup (_ :: _) |- _ => inversion_clear H
         end.
  cbn [In] in *. repeat split; intros Heq; rewrite Heq in *; tauto.
Qed.

Lemma eqb_false (a b : Z) : a <> b -> (a =? b) = false.
Proof. apply Z.eqb_neq. Qed.

Ltac key_ne := first [tauto | apply not_eq_sym; tauto].

(** ** What one turn of the loop does to the widget *)

Lemma redraw_runs (st : store P) (w : setting_widget P) :
  ro_valid (ro w) -> exists out, redraw P st w = Ok out.
Proof.
  unfold redraw, draw_info_row. destruct (ro w); cbn; intros H;
    try contradiction; eexists; reflexivity.
Qed.

Lemma default_key_break (w w' : setting_widget P) (st st' : store P)
  (cur next key : Z) (out : list (event P)) :
  widget_inv w -> editing w = false ->
  default_key P w st cur key = Break w' st' out next ->
  widget_inv w' /\ same_frame w w' /\ st' = st /\ next = cur.
Proof.
  intros [Ha [Hr [Hv He]]] Hed. unfold default_key. intros Hk.
  pose proof (edit_setting_frame P w key) as [[S1 [T1 F1]] [R1 E1]].
  destruct (ro w) as [p | c | d | cnt] eqn:Hro; try contradiction;
    [| | destruct (negb (TAG_READONLY P (tag d)))];
    injection Hk as <- <- _ <-; unfold widget_inv, same_frame;
    rewrite ?S1, ?T1, ?F1, ?R1, ?Hro, ?Hed;
    repeat split; auto; try discriminate; eauto; apply Hr.
Qed.

Lemma viewing_switch_break (w w' : setting_widget P) (st st' : store P)
  (cur next key : Z) (out : list (event P)) :
  widget_inv w -> editing w = false ->
  viewing_switch P w st cur key = Ok (Break w' st' out next) ->
  widget_inv w' /\ w_settings w' = w_settings w
  /\ total_rows w' = total_rows w /\ moved (total_rows w) cur next.
Proof.
  intros Hinv Hed. pose proof Hinv as [Ha [Hr [Hv He]]].
  unfold viewing_switch.
  assert (Hdef : forall k, default_key P w st cur k = Break w' st' out next ->
            widget_inv w' /\ w_settings w' = w_settings w
            /\ total_rows w' = total_rows w /\ moved (total_rows w) cur next).
  { intros k Hk. apply default_key_break in Hk; auto.
    destruct Hk as [Hi [[S1 [T1 _]] [_ ->]]]. unfold moved. auto. }
  assert (Hrev : forall n w1 out1,
            reveal P st w n = Ok (w1, out1) -> is_u32 n ->
            widget_inv w1 /\ w_settings w1 = w_settings w
            /\ total_rows w1 = total_rows w).
  { intros n w1 out1 E Hn.
    pose proof (reveal_cases P _ _ _ _ _ E) as Hc.
    apply reveal_aligned in E; auto.
    destruct E as [Ha1 [Hr1 [S1 T1]]].
    split; [| auto].
    unfold widget_inv. split; [exact Ha1 |]. split; [exact Hr1 |]. split.
    - destruct Hc as [[_ [-> _]] | [_ [_ [_ [_ [_ [_ Hval]]]]]]]; auto.
    - destruct Hc as [[_ [-> _]] | [_ [_ [_ [_ [_ [Hed1 _]]]]]]];
        congruence. }
  destruct (key =? KEY_DOWN P).
  { destruct (cur <? u32 (total_rows w - 1)) eqn:Hlt.
    - intros H. bind_ok H. destruct a as [w1 out1].
      injection H as <- _ _ <-.
      apply Hrev in E; [| apply u32_range]. apply Z.ltb_lt in Hlt.
      unfold moved. intuition.
    - intros H. injection H as <- _ _ <-. unfold moved. auto. }
  destruct (key =? KEY_UP P).
  { destruct (cur >? 0) eqn:Hgt.
    - intros H. bind_ok H. destruct a as [w1 out1].
      injection H as <- _ _ <-.
      apply Hrev in E; [| apply u32_range].
      assert (cur > 0) by (destruct (Z.gtb_spec cur 0); [lia | discriminate]).
      unfold moved. intuition.
    - intros H. injection H as <- _ _ <-. unfold moved. auto. }
  destruct (key =? CTRL_D P).
  { destruct (ro w) as [p | c | d | cnt] eqn:Hro; try contradiction; intros H.
    1,2: injection H as <- _ _ <-; unfold moved; auto.
    bind_ok H. injection H as <- _ _ <-.
    pose proof (select_setting_valid P _ _ _ _ E) as Hval.
    apply select_setting_frame in E. destruct E as [[S1 [T1 F1]] [R1 E1]].
    unfold widget_inv, moved. rewrite F1, E1.
    repeat split; auto; try discriminate; apply Hr. }
  destruct (key =? CTRL_X P); [discriminate |].
  destruct ((key =? CR P) || (key =? LF P)).
  { destruct (ro w) as [p | c | d | cnt] eqn:Hro; try contradiction; intros H.
    1,2: discriminate.
    injection H as H. now apply Hdef in H. }
  intros H. injection H as H. now apply Hdef in H.
Qed.

Ltac conj_split := repeat match goal with |- _ /\ _ => split end.

Ltac frame_facts :=
  repeat match goal with
    | E : load_setting _ _ _ = Ok _ |- _ =>
        pose proof (load_setting_valid _ _ _ _ E);
        apply load_setting_frame in E;
        destruct E as [[? [? ?]] [? ?]]
    | E : select_setting _ _ _ _ = Ok _ |- _ =>
        pose proof (select_setting_valid _ _ _ _ _ E);
        apply select_setting_frame in E;
        destruct E as [[? [? ?]] [? ?]]
    end.

Lemma main_loop_iter_continue (l l' : loop_state P) (key : Z) :
  widget_inv (widget l) ->
  main_loop_iter P l key = Ok (Continue l') ->
  widget_inv (widget l')
  /\ w_settings (widget l') = w_settings (widget l)
  /\ total_rows (widget l') = total_rows (widget l)
  /\ moved (total_rows (widget l)) (current l) (current l').
Proof.
  intros Hinv. pose proof Hinv as [Ha [Hr [Hv He]]].
  unfold main_loop_iter. intros H. bind_ok H.
  destruct (editing (widget l)) eqn:Hed.
  - destruct (He eq_refl) as [d Hro].
    unfold editing_keys in H.
    pose proof (edit_setting_frame P (widget l) key) as [[S1 [T1 F1]] [R1 E1]].
    destruct (edit_setting P (widget l) key) as [key' w1]. cbn [snd] in *.
    destruct ((key' =? CR P) || (key' =? LF P)).
    + bind_ok H. destruct a0 as [rc st']. bind_ok H. bind_ok H.
      injection H as <-. cbn [widget current]. frame_facts.
      unfold widget_inv, moved. conj_split; auto; congruence.
    + destruct (key' =? CTRL_C P).
      * bind_ok H. injection H as <-. cbn [widget current]. frame_facts.
        unfold widget_inv, moved. conj_split; auto; congruence.
      * injection H as <-. cbn [widget current].
        unfold widget_inv, moved. conj_split; eauto; try congruence.
        intros _. exists d. congruence.
  - unfold viewing_keys in H. bind_ok H.
    destruct a0 as [w' st' out next | target]; [| discriminate].
    apply viewing_switch_break in E0; auto.
    destruct E0 as [Hi [S1 [T1 Hm]]].
    destruct (negb (next =? current l)) eqn:Hne.
    + destruct Hi as [Ha1 [Hr1 _]].
      bind_ok H. injection H as <-. cbn [widget current]. frame_facts.
      unfold widget_inv. conj_split; auto; congruence.
    + injection H as <-. cbn [widget current]. conj_split; auto.
      now left.
Qed.

Lemma init_widget_runs (st : store P) (s : settings) (w : setting_widget P)
  (out : list (event P)) :
  init_widget P st s = Ok (w, out) ->
  widget_inv w /\ w_settings w = s
  /\ row P s UINT_MAX = ROW_CNT (total_rows w).
Proof.
  unfold init_widget. intros H. bind_ok H.
  assert (Hcnt : row P s UINT_MAX = ROW_CNT a).
  { destruct (row P s UINT_MAX); try discriminate E.
    injection E as ->. reflexivity. }
  pose proof (reveal_cases P _ _ _ _ _ H) as Hc.
  apply reveal_aligned in H; cbn [first_visible];
    [| unfold is_u32; lia | unfold is_u32, SETTINGS_LIST_ROWS; lia
     | reflexivity ].
  destruct H as [Ha [Hr [S1 T1]]]. cbn in S1, T1.
  destruct Hc as [[Hon _] | [_ [_ [_ [_ [_ [Hed Hval]]]]]]];
    [discriminate Hon |].
  unfold widget_inv. conj_split; auto; congruence.
Qed.

Lemma main_loop_start_runs (s : settings) (st : store P)
  (scr : list (event P)) (l : loop_state P) :
  main_loop_start P s st scr = Ok l ->
  widget_inv (widget l) /\ w_settings (widget l) = s
  /\ row P s UINT_MAX = ROW_CNT (total_rows (widget l))
  /\ current l = 0 /\ lstore l = st.
Proof.
  unfold main_loop_start. intros H. bind_ok H. destruct a as [w out].
  injection H as <-. cbn [widget current lstore].
  apply init_widget_runs in E. tauto.
Qed.

Lemma in_session_inv (l : loop_state P) :
  in_session P l -> widget_inv (widget l).
Proof.
  induction 1 as [s st scr l Hstart | l key l' _ IH Hturn
                 | l key s' st scr l' _ _ _ Hstart].
  - now apply main_loop_start_runs in Hstart.
  - now apply main_loop_iter_continue in Hturn.
  - now apply main_loop_start_runs in Hstart.
Qed.

(** C6: in every state of a session [first_visible] is a multiple of
    the page size of 16 rows. *)
Theorem first_visible_page_aligned (l : loop_state P) :
  in_session P l ->
  first_visible (widget l) mod SETTINGS_LIST_ROWS = 0.
Proof.
  intros H. apply in_session_inv in H. apply H.
Qed.

Lemma true_count_total (s : settings) (cnt : Z) :
  true_count P s < 2 ^ 32 ->
  row P s UINT_MAX = ROW_CNT cnt -> cnt = true_count P s.
Proof.
  intros Hc. rewrite row_nth_canonical;
    [| unfold is_u32, UINT_MAX; lia | exact Hc].
  destruct (nth_error _ _) as [r |] eqn:Hnth.
  - assert (Hlt : (Z.to_nat UINT_MAX < List.length (canonical_rows P s))%nat)
      by (apply nth_error_Some; congruence).
    unfold true_count, UINT_MAX in *. lia.
  - congruence.
Qed.




(** ** Running [main_loop] over keys *)

Lemma main_loop_keys_app (pre rest : list Z) :
  forall l0 l,
    main_loop_keys P l0 pre = Ok (Blocked l) ->
    main_loop_keys P l0 (pre ++ rest) = main_loop_keys P l rest.
Proof.
  induction pre as [| key pre IH]; intros l0 l H; cbn [main_loop_keys app] in *.
  - now injection H as ->.
  - bind_ok H. destruct a as [l1 | next st scr]; [| discriminate H].
    cbn [bind]. now apply IH.
Qed.

(** Every return of [main_loop] has read a key. *)
Lemma main_loop_keys_reads (keys : list Z) :
  forall l next st scr rest,
    main_loop_keys P l keys = Ok (Returned next st scr rest) ->
    (List.length rest < List.length keys)%nat.
Proof.
  induction keys as [| key keys IH]; intros l next st scr rest H;
    cbn [main_loop_keys] in H; [discriminate H |].
  bind_ok H. destruct a as [l1 | next1 st1 scr1].
  - apply IH in H. cbn [List.length]. lia.
  - injection H as _ _ _ <-. cbn [List.length]. lia.
Qed.

(** The loop of [settings_ui] does not run out of the fuel that
    [settings_ui] gives it: more fuel changes nothing. *)
Lemma settings_ui_loop_fuel (fuel : nat) :
  forall fuel' s st scr keys,
    (List.length keys < fuel)%nat -> (List.length keys < fuel')%nat ->
    settings_ui_loop P fuel s st scr keys
    = settings_ui_loop P fuel' s st scr keys.
Proof.
  induction fuel as [| fuel IH]; intros fuel' s st scr keys Hf Hf';
    [lia |].
  destruct fuel' as [| fuel']; [lia |]. cbn [settings_ui_loop].
  destruct (main_loop P s st scr keys) as [e | |] eqn:E; try reflexivity.
  cbn [bind]. destruct e as [[s' |] st' scr' rest | l]; try reflexivity.
  unfold main_loop in E. bind_ok E. apply main_loop_keys_reads in E.
  apply IH; lia.
Qed.

Lemma main_loop_keys_reach (s : settings) (pre : list Z) :
  forall l0 l,
    in_main_loop P s l0 ->
    main_loop_keys P l0 pre = Ok (Blocked l) -> in_main_loop P s l.
Proof.
  induction pre as [| key pre IH]; intros l0 l Hin H; cbn [main_loop_keys] in H.
  - now injection H as <-.
  - bind_ok H. destruct a as [l1 | next st scr]; [| discriminate H].
    apply (IH l1); [| exact H]. eapply at_turn; eassumption.
Qed.

Lemma main_loop_reach (s : settings) (st : store P) (scr : list (event P))
  (pre : list Z) (l : loop_state P) :
  main_loop P s st scr pre = Ok (Blocked l) -> in_main_loop P s l.
Proof.
  unfold main_loop. intros H. bind_ok H.
  eapply main_loop_keys_reach; [| exact H]. eapply at_start; exact E.
Qed.

Lemma in_main_loop_session (s : settings) (l : loop_state P) :
  in_main_loop P s l -> in_session P l.
Proof.
  induction 1 as [st scr l Hstart | l key l' _ IH Hturn].
  - eapply session_start; exact Hstart.
  - eapply session_turn; eassumption.
Qed.

(** ** The edit state machine *)

Lemma load_setting_runs (st : store P) (w : setting_widget P) (d : setting) :
  ro w = SETTING_ROW d ->
  exists w',
    load_setting P st w = Ok w'
    /\ value w' = snd (fetchf_setting P st (w_settings w) d EmptyString
                         VALUE_SIZE)
    /\ same_frame w w' /\ ro w' = SETTING_ROW d /\ editing w' = false.
Proof.
  intros Hro. unfold load_setting. rewrite Hro. cbn [ro_u_setting bind].
  eexists. split; [reflexivity |]. cbn.
  repeat split; exact Hro.
Qed.

(** C10: in every Editing state of a session, a key that the line
    editor hands back as CR, LF or Ctrl-C -- a confirm, whether or not
    the store takes the value, or a cancel -- ends the turn of the loop
    with the editing flag cleared. *)
Theorem confirm_or_cancel_leaves_editing (l : loop_state P) (key : Z) :
  in_session P l -> editing (widget l) = true ->
  fst (edit_setting P (widget l) key) = CR P
  \/ fst (edit_setting P (widget l) key) = LF P
  \/ fst (edit_setting P (widget l) key) = CTRL_C P ->
  exists l',
    main_loop_iter P l key = Ok (Continue l')
    /\ editing (widget l') = false.
Proof.
  intros Hin Hed Hkey. apply in_session_inv in Hin.
  destruct Hin as [_ [_ [Hv He]]]. destruct (He Hed) as [d Hro].
  destruct (redraw_runs (lstore l) (widget l) Hv) as [out Hout].
  unfold main_loop_iter. rewrite Hout, Hed. cbn [bind].
  unfold editing_keys.
  pose proof (edit_setting_frame P (widget l) key) as [_ [R1 _]].
  destruct (edit_setting P (widget l) key) as [key' w1]. cbn [fst snd] in *.
  rewrite Hro in R1.
  destruct ((key' =? CR P) || (key' =? LF P)) eqn:Hconfirm.
  - unfold save_setting. rewrite R1. cbn [ro_u_setting bind].
    destruct (storef_setting P _ _ _ _) as [rc st'].
    destruct (load_setting_runs st' w1 d R1) as [w2 [Hload [_ [_ [_ Hed2]]]]].
    destruct (rc =? 0); cbn [bind]; rewrite Hload; cbn [bind];
      eexists; (split; [reflexivity | exact Hed2]).
  - apply orb_false_iff in Hconfirm. destruct Hconfirm as [Hcr Hlf].
    apply Z.eqb_neq in Hcr, Hlf.
    destruct Hkey as [-> | [-> | ->]]; try contradiction.
    rewrite Z.eqb_refl.
    destruct (load_setting_runs (lstore l) w1 d R1)
      as [w2 [Hload [_ [_ [_ Hed2]]]]].
    rewrite Hload. cbn [bind]. eexists. split; [reflexivity | exact Hed2].
Qed.

(** C3: when the store rejects the value of a confirm in the Editing
    state of a Setting row, and has changed nothing in doing so, the
    turn of the loop raises the alert naming the setting and the reason,
    keeps the store, and leaves the widget in Viewing with its value
    equal to a fetch of the same scope and descriptor from that store. *)
Theorem rejected_commit_reloads (l : loop_state P) (key : Z) (d : setting)
  (rc : Z) (st' : store P) :
  editing (widget l) = true -> ro (widget l) = SETTING_ROW d ->
  fst (edit_setting P (widget l) key) = CR P
  \/ fst (edit_setting P (widget l) key) = LF P ->
  storef_setting P (lstore l) (w_settings (widget l)) d
    (value (snd (edit_setting P (widget l) key))) = (rc, st') ->
  rc <> 0 -> st' = lstore l ->
  exists out l',
    redraw P (lstore l) (widget l) = Ok out
    /\ main_loop_iter P l key = Ok (Continue l')
    /\ screen l' = screen l ++ out ++ alert P (could_not_set P d rc)
    /\ lstore l' = lstore l
    /\ value (widget l') =
         snd (fetchf_setting P (lstore l') (w_settings (widget l')) d
                EmptyString VALUE_SIZE)
    /\ editing (widget l') = false
    /\ ro (widget l') = SETTING_ROW d
    /\ w_settings (widget l') = w_settings (widget l)
    /\ current l' = current l.
Proof.
  intros Hed Hro Hkey Hstore Hrc Hatomic.
  assert (Hv : ro_valid (ro (widget l))) by (rewrite Hro; exact I).
  destruct (redraw_runs (lstore l) (widget l) Hv) as [out Hout].
  exists out. unfold main_loop_iter. rewrite Hout, Hed. cbn [bind].
  unfold editing_keys.
  pose proof (edit_setting_frame P (widget l) key) as [[S1 _] [R1 _]].
  destruct (edit_setting P (widget l) key) as [key' w1]. cbn [fst snd] in *.
  rewrite Hro in R1.
  replace ((key' =? CR P) || (key' =? LF P)) with true
    by (symmetry; apply orb_true_iff;
        destruct Hkey as [-> | ->]; rewrite Z.eqb_refl; auto).
  unfold save_setting. rewrite R1. cbn [ro_u_setting bind].
  rewrite S1, Hstore. cbn [bind].
  rewrite (eqb_false rc 0 Hrc). cbn [bind]. subst st'.
  destruct (load_setting_runs (lstore l) w1 d R1)
    as [w2 [Hload [Hval [[S2 _] [R2 Hed2]]]]].
  rewrite Hload. cbn [bind]. eexists. split; [reflexivity |].
  split; [reflexivity |]. cbn [screen lstore widget current].
  conj_split; auto.
  - now rewrite app_assoc.
  - rewrite Hval. congruence.
  - congruence.
Qed.

(** ** The keys of the Viewing state *)

(** C4: in the Viewing state, a key that asks to edit a read-only
    Setting row or a Parent or Child row, and the delete key on a Parent
    or Child row, end the turn of the loop with the read-only alert on
    the screen and with the widget (still Viewing), the selection and
    the store as they were. *)
Theorem refused_before_store (l : loop_state P) (key : Z) :
  editing (widget l) = false ->
  (exists d, ro (widget l) = SETTING_ROW d
             /\ TAG_READONLY P (tag d) = true /\ edit_key P key)
  \/ (structural (ro (widget l)) /\ edit_key P key
      /\ key <> CR P /\ key <> LF P)
  \/ (structural (ro (widget l)) /\ key = CTRL_D P) ->
  exists out,
    redraw P (lstore l) (widget l) = Ok out
    /\ main_loop_iter P l key =
         Ok (Continue {| widget := widget l;
                         current := current l;
                         lstore := lstore l;
                         screen := screen l ++ out ++ alert P read_only |}).
Proof.
  intros Hed Hcase.
  assert (Hv : ro_valid (ro (widget l))).
  { destruct Hcase as [[d [-> _]] | [[Hs _] | [Hs _]]]; try exact I;
      destruct (ro (widget l)); try contradiction; exact I. }
  destruct (redraw_runs (lstore l) (widget l) Hv) as [out Hout].
  exists out. split; [exact Hout |].
  unfold main_loop_iter. rewrite Hout, Hed. cbn [bind].
  unfold viewing_keys.
  assert (Hsw : viewing_switch P (widget l) (lstore l) (current l) key =
                Ok (Break (widget l) (lstore l) (alert P read_only)
                      (current l))).
  { unfold viewing_switch.
    pose proof keys_differ as K.
    destruct Hcase as [[d [Hro [Hread [Hd [Hu [Hdel Hx]]]]]]
                      | [[Hs [[Hd [Hu [Hdel Hx]]] [Hcr Hlf]]]
                        | [Hs ->]]].
    - rewrite !eqb_false by assumption.
      unfold default_key. rewrite Hro, Hread. cbn [negb].
      destruct ((key =? CR P) || (key =? LF P)); reflexivity.
    - rewrite !eqb_false by assumption. cbn [orb].
      unfold default_key. destruct (ro (widget l)); try contradiction;
        reflexivity.
    - rewrite !eqb_false by key_ne. rewrite Z.eqb_refl.
      destruct (ro (widget l)); try contradiction; reflexivity. }
  rewrite Hsw. cbn [bind]. rewrite Z.eqb_refl. cbn [negb].
  now rewrite app_assoc.
Qed.

(** C5: from a Viewing state that [main_loop] has reached, a confirm
    key on a Parent or Child row makes [main_loop] return the scope of
    that row and [settings_ui] go round its loop on that scope with the
    keys that are left; the exit key makes [main_loop] return NULL and
    [settings_ui] end the session. *)
Theorem confirm_navigates_exit_ends (s : settings) (st : store P)
  (scr : list (event P)) (pre rest : list Z) (l : loop_state P)
  (fuel : nat) :
  main_loop P s st scr pre = Ok (Blocked l) ->
  editing (widget l) = false ->
  (forall key target,
      key = CR P \/ key = LF P ->
      ro (widget l) = PARENT_ROW target \/ ro (widget l) = CHILD_ROW target ->
      exists scr',
        main_loop_iter P l key = Ok (Return (Some target) (lstore l) scr')
        /\ main_loop P s st scr (pre ++ key :: rest) =
             Ok (Returned (Some target) (lstore l) scr' rest)
        /\ settings_ui_loop P (S fuel) s st scr (pre ++ key :: rest) =
             settings_ui_loop P fuel target (lstore l) scr' rest)
  /\ (exists scr',
        main_loop_iter P l (CTRL_X P) = Ok (Return None (lstore l) scr')
        /\ main_loop P s st scr (pre ++ CTRL_X P :: rest) =
             Ok (Returned None (lstore l) scr' rest)
        /\ settings_ui_loop P (S fuel) s st scr (pre ++ CTRL_X P :: rest) =
             Ok (Exited 0 (lstore l) (scr' ++ [Endwin P]))).
Proof.
  intros Hrun Hed.
  assert (Hv : ro_valid (ro (widget l))).
  { apply main_loop_reach, in_main_loop_session, in_session_inv in Hrun.
    apply Hrun. }
  destruct (redraw_runs (lstore l) (widget l) Hv) as [out Hout].
  assert (Happ : forall key,
            main_loop P s st scr (pre ++ key :: rest) =
              o <- main_loop_iter P l key ;;
              match o with
              | Continue l' => main_loop_keys P l' rest
              | Return next st1 scr1 => Ok (Returned next st1 scr1 rest)
              end).
  { intros key. unfold main_loop in *. destruct (main_loop_start P s st scr);
      try discriminate Hrun. cbn [bind] in *.
    now rewrite (main_loop_keys_app pre (key :: rest) _ _ Hrun). }
  pose proof keys_differ as K.
  split.
  - intros key target Hkey Hrow.
    assert (Hit : main_loop_iter P l key =
                  Ok (Return (Some target) (lstore l) (screen l ++ out))).
    { unfold main_loop_iter. rewrite Hout, Hed. cbn [bind].
      unfold viewing_keys, viewing_switch.
      replace ((key =? CR P) || (key =? LF P)) with true
        by (symmetry; apply orb_true_iff;
            destruct Hkey as [-> | ->]; rewrite Z.eqb_refl; auto).
      destruct Hkey as [-> | ->]; rewrite !eqb_false by key_ne;
        destruct Hrow as [-> | ->]; reflexivity. }
    exists (screen l ++ out). split; [exact Hit |].
    assert (Hml : main_loop P s st scr (pre ++ key :: rest) =
                  Ok (Returned (Some target) (lstore l) (screen l ++ out)
                        rest))
      by (rewrite Happ, Hit; reflexivity).
    split; [exact Hml |].
    cbn [settings_ui_loop]. rewrite Hml. reflexivity.
  - assert (Hit : main_loop_iter P l (CTRL_X P) =
                  Ok (Return None (lstore l) (screen l ++ out))).
    { unfold main_loop_iter. rewrite Hout, Hed. cbn [bind].
      unfold viewing_keys, viewing_switch.
      rewrite !eqb_false by key_ne. rewrite Z.eqb_refl. reflexivity. }
    exists (screen l ++ out). split; [exact Hit |].
    assert (Hml : main_loop P s st scr (pre ++ CTRL_X P :: rest) =
                  Ok (Returned None (lstore l) (screen l ++ out) rest))
      by (rewrite Happ, Hit; reflexivity).
    split; [exact Hml |].
    cbn [settings_ui_loop]. rewrite Hml. reflexivity.
Qed.

(** C2, as the code has it: the delete key on a selected Setting row
    deletes the value of that setting from the store and selects the
    same index again; the total row count, the window and the row at
    the index stay as they were, and the value shown is a fetch from
    the store after the deletion. *)
Theorem delete_keeps_rows (l : loop_state P) (d : setting) :
  editing (widget l) = false ->
  ro (widget l) = SETTING_ROW d ->
  row P (w_settings (widget l)) (current l) = SETTING_ROW d ->
  exists out l',
    redraw P (lstore l) (widget l) = Ok out
    /\ main_loop_iter P l (CTRL_D P) = Ok (Continue l')
    /\ lstore l' = delete_setting P (lstore l) (w_settings (widget l)) d
    /\ total_rows (widget l') = total_rows (widget l)
    /\ first_visible (widget l') = first_visible (widget l)
    /\ w_settings (widget l') = w_settings (widget l)
    /\ current l' = current l
    /\ ro (widget l') = row P (w_settings (widget l)) (current l)
    /\ value (widget l') =
         snd (fetchf_setting P (lstore l') (w_settings (widget l)) d
                EmptyString VALUE_SIZE)
    /\ editing (widget l') = false.
Proof.
  intros Hed Hro Hrow.
  assert (Hv : ro_valid (ro (widget l))) by (rewrite Hro; exact I).
  destruct (redraw_runs (lstore l) (widget l) Hv) as [out Hout].
  exists out. unfold main_loop_iter. rewrite Hout, Hed. cbn [bind].
  unfold viewing_keys, viewing_switch.
  pose proof keys_differ as K.
  rewrite !eqb_false by key_ne. rewrite Z.eqb_refl, Hro.
  set (st' := delete_setting P (lstore l) (w_settings (widget l)) d).
  unfold select_setting.
  match goal with
  | |- context [load_setting P st' ?w0] =>
      destruct (load_setting_runs st' w0 d) as [w2 [Hload [Hval [Hf [R2 E2]]]]];
        [cbn [ro]; exact Hrow | rewrite Hload]
  end.
  cbn [bind]. rewrite Z.eqb_refl. cbn [negb].
  eexists. split; [reflexivity |]. split; [reflexivity |].
  cbn [screen lstore widget current].
  destruct Hf as [S2 [T2 F2]]. cbn in S2, T2, F2, Hval.
  conj_split; auto; congruence.
Qed.

End Navigator.

(** * The console on the small platform *)



(** The first [reveal] of [init_widget] on the root, called twice. *)
Lemma reveal_idempotent_example :
  is_u32 0 /\ is_u32 (first_visible Demo.fresh_widget)
  /\ reveal Demo.demo [] Demo.fresh_widget 0 = Ok Demo.revealed
  /\ first_visible (fst Demo.revealed) = 0
  /\ reveal Demo.demo [] (fst Demo.revealed) 0 = Ok (fst Demo.revealed, []).
Proof.
  assert (H0 : is_u32 0) by (unfold is_u32; lia).
  assert (H16 : is_u32 (first_visible Demo.fresh_widget))
    by (change (first_visible Demo.fresh_widget) with 16;
        unfold is_u32; lia).
  assert (E : reveal Demo.demo [] Demo.fresh_widget 0
              = Ok (fst Demo.revealed, snd Demo.revealed))
    by (vm_compute; reflexivity).
  split; [exact H0 |]. split; [exact H16 |].
  split; [vm_compute; reflexivity |]. split; [reflexivity |].
  exact (proj1 (reveal_idempotent Demo.demo [] _ _ 0 _ H0 H16 E)).
Defined.

(** The first state of a session on the root. *)
Lemma first_visible_page_aligned_example :
  in_session Demo.demo Demo.at_start_of_root
  /\ first_visible (widget Demo.at_start_of_root) mod SETTINGS_LIST_ROWS = 0.
Proof.
  assert (Hs : in_session Demo.demo Demo.at_start_of_root).
  { apply (session_start Demo.demo Demo.Pscope [] []).
    vm_compute. reflexivity. }
  split; [exact Hs |].
  exact (first_visible_page_aligned Demo.demo _ Hs).
Defined.


(** Editing [A] with the text "bad": the store refuses it on Enter, the
    alert names [a] and the reason, and the value shown is the empty
    one of the store again. *)
Lemma rejected_commit_reloads_example :
  exists out l',
    editing (widget Demo.editing_bad) = true
    /\ value (widget Demo.editing_bad) = "bad"%string
    /\ redraw Demo.demo (lstore Demo.editing_bad) (widget Demo.editing_bad)
       = Ok out
    /\ main_loop_iter Demo.demo Demo.editing_bad 13 = Ok (Continue l')
    /\ screen l' = screen Demo.editing_bad ++ out
                   ++ alert Demo.demo " Could not set a: Invalid argument "
    /\ lstore l' = []
    /\ value (widget l') = EmptyString
    /\ editing (widget l') = false.
Proof.
  destruct (rejected_commit_reloads Demo.demo Demo.editing_bad 13 Demo.A
              22 [])
    as [out [l' [Hout [Hit [Hscr [Hst [Hval [Hed [Hro [Hs Hcur]]]]]]]]]];
    try reflexivity.
  - left. reflexivity.
  - discriminate.
  - exists out, l'.
    split; [reflexivity |]. split; [reflexivity |].
    split; [exact Hout |]. split; [exact Hit |]. split; [exact Hscr |].
    split; [exact Hst |]. split; [| exact Hed].
    rewrite Hval, Hst, Hs. reflexivity.
Defined.

(** The same state left with Ctrl-C. *)
Lemma confirm_or_cancel_leaves_editing_example :
  exists l',
    in_session Demo.demo Demo.editing_bad
    /\ editing (widget Demo.editing_bad) = true
    /\ main_loop_iter Demo.demo Demo.editing_bad 3 = Ok (Continue l')
    /\ editing (widget l') = false.
Proof.
  assert (Hs : in_session Demo.demo Demo.editing_bad).
  { apply (in_main_loop_session Demo.demo Demo.Pscope).
    apply (main_loop_reach Demo.demo Demo.Pscope [] [] [258; 98; 97; 100]).
    vm_compute. reflexivity. }
  destruct (confirm_or_cancel_leaves_editing Demo.demo Demo.editing_bad 3
              Hs eq_refl (or_intror (or_intror eq_refl)))
    as [l' [Hit Hed]].
  exists l'. split; [exact Hs |]. split; [reflexivity |].
  split; [exact Hit | exact Hed].
Defined.

(** The delete key on the child row of the root. *)
Lemma refused_before_store_example :
  exists out,
    editing (widget Demo.at_start_of_root) = false
    /\ ro (widget Demo.at_start_of_root) = CHILD_ROW Demo.Xscope
    /\ main_loop_iter Demo.demo Demo.at_start_of_root 4 =
         Ok (Continue
               {| widget := widget Demo.at_start_of_root;
                  current := current Demo.at_start_of_root;
                  lstore := lstore Demo.at_start_of_root;
                  screen := screen Demo.at_start_of_root ++ out
                            ++ alert Demo.demo read_only |}).
Proof.
  destruct (refused_before_store Demo.demo Demo.at_start_of_root 4 eq_refl
              (or_intror (or_intror (conj I eq_refl))))
    as [out [_ Hit]].
  exists out. split; [reflexivity |]. split; [reflexivity | exact Hit].
Defined.

(** Enter on the child row of the root leads to [X]; Ctrl-X ends the
    session. *)
Lemma confirm_navigates_exit_ends_example :
  main_loop Demo.demo Demo.Pscope [] [] [] = Ok (Blocked Demo.at_start_of_root)
  /\ editing (widget Demo.at_start_of_root) = false
  /\ (exists scr',
         main_loop Demo.demo Demo.Pscope [] [] [13; 24] =
           Ok (Returned (P := Demo.demo) (Some Demo.Xscope) [] scr' [24])
         /\ settings_ui_loop Demo.demo 3 Demo.Pscope [] [] [13; 24] =
              settings_ui_loop Demo.demo 2 Demo.Xscope [] scr' [24])
  /\ (exists scr',
         settings_ui_loop Demo.demo 3 Demo.Pscope [] [] [24] =
           Ok (Exited (P := Demo.demo) 0 [] (scr' ++ [Endwin Demo.demo]))).
Proof.
  assert (E : main_loop Demo.demo Demo.Pscope [] [] []
              = Ok (Blocked Demo.at_start_of_root))
    by (vm_compute; reflexivity).
  split; [exact E |]. split; [reflexivity |].
  split.
  - destruct (confirm_navigates_exit_ends Demo.demo Demo.Pscope [] [] []
                [24] _ 2 E eq_refl) as [Hnav _].
    destruct (Hnav 13 Demo.Xscope (or_introl eq_refl) (or_intror eq_refl))
      as [scr' [_ [Hml Hui]]].
    exists scr'. split; [exact Hml | exact Hui].
  - destruct (confirm_navigates_exit_ends Demo.demo Demo.Pscope [] [] []
                [] _ 2 E eq_refl) as [_ [scr' [_ [_ Hui]]]].
    exists scr'. exact Hui.
Defined.

(** The delete key on the set [A] of the root: its value goes from the
    store, the rows stay. *)
Lemma delete_keeps_rows_example :
  exists out l',
    editing (widget Demo.on_set_a) = false
    /\ ro (widget Demo.on_set_a) = SETTING_ROW Demo.A
    /\ row Demo.demo (w_settings (widget Demo.on_set_a))
         (current Demo.on_set_a) = SETTING_ROW Demo.A
    /\ value (widget Demo.on_set_a) = "1"%string
    /\ redraw Demo.demo (lstore Demo.on_set_a) (widget Demo.on_set_a) = Ok out
    /\ main_loop_iter Demo.demo Demo.on_set_a 4 = Ok (Continue l')
    /\ lstore l' = []
    /\ total_rows (widget l') = 5
    /\ ro (widget l') = SETTING_ROW Demo.A.
Proof.
  assert (Hrow : row Demo.demo (w_settings (widget Demo.on_set_a))
                   (current Demo.on_set_a) = SETTING_ROW Demo.A)
    by (vm_compute; reflexivity).
  destruct (delete_keeps_rows Demo.demo Demo.on_set_a Demo.A
              eq_refl eq_refl Hrow)
    as [out [l' [Hout [Hit [Hst [Ht [_ [_ [_ [Hro _]]]]]]]]]].
  exists out, l'.
  split; [reflexivity |]. split; [reflexivity |]. split; [exact Hrow |].
  split; [reflexivity |]. split; [exact Hout |]. split; [exact Hit |].
  split; [rewrite Hst; reflexivity |].
  split; [rewrite Ht; reflexivity |].
  rewrite Hro. exact Hrow.
Defined.

(** The delete key on row 1 of the root, the set [A], which is not the
    last row: the total stays at 5 and does not drop to 4, and row 1
    stays the setting [A] and does not become the row 2 of before, the
    setting [B]. *)
Lemma delete_shifts_rows_counterexample :
  current Demo.on_set_a = 1
  /\ ro (widget Demo.on_set_a) = SETTING_ROW Demo.A
  /\ total_rows (widget Demo.on_set_a) = 5
  /\ row Demo.demo Demo.Pscope 2 = SETTING_ROW Demo.B
  /\ main_loop_iter Demo.demo Demo.on_set_a 4
     = Ok (Continue Demo.after_delete)
  /\ lstore Demo.after_delete = []
  /\ total_rows (widget Demo.after_delete)
     <> total_rows (widget Demo.on_set_a) - 1
  /\ ro (widget Demo.after_delete) <> row Demo.demo Demo.Pscope 2
  /\ row Demo.demo Demo.Pscope 1 <> row Demo.demo Demo.Pscope 2.
Proof.
  split; [reflexivity |]. split; [reflexivity |]. split; [reflexivity |].
  split; [vm_compute; reflexivity |].
  split; [vm_compute; reflexivity |].
  split; [reflexivity |].
  split; [vm_compute; discriminate |].
  split; vm_compute; discriminate.
Defined.

(** * The scriptlet *)

Section Scriptlet.

(** ** Reads and writes in a buffer laid out in three parts *)

Lemma peek_layout (pre cur tail : list ascii) (g : nat) :
  peek (pre ++ cur ++ tail) (List.length pre + List.length cur + g)
  = peek tail g.
Proof.
  unfold peek. rewrite app_assoc.
  rewrite nth_error_app2 by (rewrite length_app; lia).
  replace (List.length pre + List.length cur + g
           - List.length (pre ++ cur))%nat with g
    by (rewrite length_app; lia).
  reflexivity.
Qed.

Lemma skipn_next {A : Type} (g : nat) :
  forall (l : list A) x rest, skipn g l = x :: rest -> skipn (S g) l = rest.
Proof.
  induction g as [| g IH]; intros l x rest H.
  - cbn in H. subst l. reflexivity.
  - destruct l as [| y l]; [discriminate H |]. cbn [skipn] in *.
    now apply (IH l x).
Qed.

Lemma peek_skipn (g : nat) :
  forall (tail : list ascii) x rest,
    skipn g tail = x :: rest -> peek tail g = Ok x.
Proof.
  induction g as [| g IH]; intros tail x rest H.
  - cbn in H. subst tail. reflexivity.
  - destruct tail as [| y tail]; [discriminate H |]. cbn [skipn] in H.
    unfold peek. cbn [nth_error]. now apply (IH tail x rest).
Qed.

Lemma peek_past (g : nat) :
  forall tail : list ascii, skipn g tail = [] -> peek tail g = Fault.
Proof.
  induction g as [| g IH]; intros tail H.
  - cbn in H. subst tail. reflexivity.
  - destruct tail as [| y tail]; [reflexivity |]. cbn [skipn] in H.
    unfold peek. cbn [nth_error]. now apply IH.
Qed.

Lemma poke_here (pre : list ascii) (t c : ascii) (tail : list ascii) :
  poke (pre ++ t :: tail) (List.length pre) c = Ok (pre ++ c :: tail).
Proof.
  induction pre as [| x pre IH]; [reflexivity |].
  cbn [app List.length poke]. now rewrite IH.
Qed.

Lemma poke_layout (pre cur : list ascii) (t c : ascii) (tail : list ascii) :
  poke (pre ++ cur ++ t :: tail) (List.length pre + List.length cur) c
  = Ok (pre ++ cur ++ c :: tail).
Proof.
  rewrite <- length_app, !app_assoc. apply poke_here.
Qed.

Lemma cstring_line (cur : list ascii) (rest : list ascii) :
  nul_free cur -> cstring (cur ++ zero :: rest) = Ok cur.
Proof.
  induction 1 as [| c cur Hc _ IH]; [reflexivity |].
  cbn [app cstring]. now rewrite Hc, IH.
Qed.

Lemma system_layout (pre cur rest : list ascii) (ran : list (list ascii)) :
  nul_free cur ->
  system (pre ++ cur ++ zero :: rest) (List.length pre) ran
  = Ok (ran ++ [cur]).
Proof.
  intros H. unfold system.
  rewrite skipn_app, skipn_all, Nat.sub_diag. cbn [app skipn].
  now rewrite cstring_line.
Qed.

(** ** The loop against the comment *)

Lemma scriptlet_from_layout (fuel : nat) :
  forall rem pre cur tail g ran suffix b line from to,
    b = pre ++ cur ++ tail ->
    line = List.length pre ->
    to = (List.length pre + List.length cur)%nat ->
    from = (List.length pre + List.length cur + g)%nat ->
    nul_free cur -> nul_free rem ->
    skipn g tail = rem ++ suffix ->
    (forall c rest, suffix = c :: rest -> c = zero) ->
    (List.length rem < fuel)%nat ->
    scriptlet_from fuel b line from to ran
    = outcome_after suffix (ran ++ unescape rem cur).
Proof.
  induction fuel as [| fuel IH];
    intros rem pre cur tail g ran suffix b line from to
           -> -> -> -> Hcur Hrem Hskip Hsuf Hfuel;
    [lia |].
  unfold scriptlet_from. cbn [scriptlet_loop].
  rewrite peek_layout.
  assert (Hlast : forall t tail',
             tail = t :: tail' ->
             (b' <- poke (pre ++ cur ++ tail)
                      (List.length pre + List.length cur) zero ;;
              system b' (List.length pre) ran) = Ok (ran ++ [cur])).
  { intros t tail' ->. rewrite poke_layout. cbn [bind].
    now apply system_layout. }
  destruct rem as [| c rem].
  - (* the NUL, or the end of the buffer *)
    cbn [app] in Hskip. destruct suffix as [| z rest].
    + now rewrite (peek_past _ _ Hskip).
    + rewrite (peek_skipn _ _ _ _ Hskip). cbn [bind].
      rewrite (Hsuf z rest eq_refl).
      change (is_nul zero) with true. cbn [bind sc_buf sc_to sc_line sc_ran].
      destruct tail as [| t tail']; [destruct g; discriminate Hskip |].
      cbn [outcome_after unescape]. now apply (Hlast t tail').
  - cbn [app] in Hskip. inversion Hrem as [| c' rem' Hc Hrem']; subst.
    rewrite (peek_skipn _ _ _ _ Hskip). cbn [bind]. rewrite Hc.
    pose proof (skipn_next _ _ _ _ Hskip) as Hskip1.
    destruct tail as [| t tail']; [destruct g; discriminate Hskip |].
    cbn [skipn] in Hskip1. cbn [unescape].
    destruct (is_backslash c).
    + replace (S (List.length pre + List.length cur + g))
        with (List.length pre + List.length cur + S g)%nat by lia.
      rewrite peek_layout.
      unfold peek at 1. cbn [nth_error]. fold (peek tail' g).
      destruct rem as [| c1 rem].
      * (* backslash at end of script *)
        cbn [app] in Hskip1. destruct suffix as [| z rest].
        -- now rewrite (peek_past _ _ Hskip1).
        -- rewrite (peek_skipn _ _ _ _ Hskip1). cbn [bind].
           rewrite (Hsuf z rest eq_refl). change (is_nul zero) with true.
           cbn [bind sc_buf sc_to sc_line sc_ran outcome_after].
           now apply (Hlast t tail').
      * cbn [app] in Hskip1.
        inversion Hrem' as [| c1' rem'' Hc1 Hrem'']; subst.
        rewrite (peek_skipn _ _ _ _ Hskip1). cbn [bind]. rewrite Hc1.
        pose proof (skipn_next _ _ _ _ Hskip1) as Hskip2.
        destruct (is_n c1).
        -- rewrite (poke_layout pre cur t zero tail'). cbn [bind].
           rewrite system_layout by exact Hcur. cbn [bind].
           fold (scriptlet_from fuel (pre ++ cur ++ zero :: tail')
                   (S (List.length pre + List.length cur))
                   (S (List.length pre + List.length cur + S g))
                   (S (List.length pre + List.length cur)) (ran ++ [cur])).
           rewrite (IH rem (pre ++ cur ++ [zero]) [] tail' (S g)
                      (ran ++ [cur]) suffix); try assumption.
           ++ now rewrite <- app_assoc.
           ++ now rewrite <- !app_assoc.
           ++ rewrite !length_app. cbn. lia.
           ++ rewrite !length_app. cbn. lia.
           ++ rewrite !length_app. cbn. lia.
           ++ constructor.
           ++ cbn in Hfuel. lia.
        -- rewrite (poke_layout pre cur t c1 tail'). cbn [bind].
           fold (scriptlet_from fuel (pre ++ cur ++ c1 :: tail')
                   (List.length pre)
                   (S (List.length pre + List.length cur + S g))
                   (S (List.length pre + List.length cur)) ran).
           apply (IH rem pre (cur ++ [c1]) tail' (S g) ran suffix);
             try assumption.
           ++ now rewrite <- !app_assoc.
           ++ reflexivity.
           ++ rewrite !length_app. cbn. lia.
           ++ rewrite !length_app. cbn. lia.
           ++ apply Forall_app. split; [exact Hcur | now constructor].
           ++ cbn in Hfuel. lia.
    + rewrite (poke_layout pre cur t c tail'). cbn [bind].
      fold (scriptlet_from fuel (pre ++ cur ++ c :: tail')
              (List.length pre)
              (S (List.length pre + List.length cur + g))
              (S (List.length pre + List.length cur)) ran).
      apply (IH rem pre (cur ++ [c]) tail' g ran suffix); try assumption.
      * now rewrite <- !app_assoc.
      * reflexivity.
      * rewrite !length_app. cbn. lia.
      * rewrite !length_app. cbn. lia.
      * apply Forall_app. split; [exact Hcur | now constructor].
      * cbn in Hfuel. lia.
Qed.

Lemma scriptlet_exec_unescapes_gen (rc : Z) (s rest : list ascii) :
  0 < rc -> nul_free s ->
  scriptlet_exec rc (s ++ zero :: rest) = Ok (unescape s []).
Proof.
  intros Hrc Hs. unfold scriptlet_exec.
  destruct (Z.leb_spec rc 0) as [Hle | _]; [lia |].
  apply (scriptlet_from_layout _ s [] [] (s ++ zero :: rest) 0 []
           (zero :: rest)); try reflexivity; try assumption.
  - constructor.
  - intros c r H. now injection H as <- _.
  - rewrite length_app. cbn. lia.
Qed.

(** X1: when a scriptlet is found and its bytes end in a NUL inside the
    buffer, [scriptlet_exec] runs without leaving the buffer and hands
    [system] the lines its comment describes: split at backslash-n,
    backslash-X turned into X, a backslash at the end dropped. *)
Theorem scriptlet_exec_unescapes (rc : Z) (s rest : list ascii) :
  0 < rc -> nul_free s ->
  scriptlet_exec rc (s ++ zero :: rest) = Ok (unescape s []).
Proof. apply scriptlet_exec_unescapes_gen. Qed.

(** X2: when the bytes that [fetch_setting] left hold no NUL,
    [scriptlet_exec] reads past the end of [script]. *)
Theorem scriptlet_exec_unterminated (rc : Z) (script : list ascii) :
  0 < rc -> nul_free script ->
  scriptlet_exec rc script = Fault.
Proof.
  intros Hrc Hs. unfold scriptlet_exec.
  destruct (Z.leb_spec rc 0) as [Hle | _]; [lia |].
  apply (scriptlet_from_layout _ script [] [] script 0 [] []);
    try reflexivity; try assumption.
  - constructor.
  - now rewrite app_nil_r.
  - intros c r H. discriminate H.
  - lia.
Qed.

(** ** Writing lines as a script *)

Lemma unescape_escape_line (l : list ascii) :
  forall cur rest,
    unescape (escape_line l ++ rest) cur = unescape rest (cur ++ l).
Proof.
  induction l as [| c l IH]; intros cur rest; cbn [escape_line app].
  - now rewrite app_nil_r.
  - destruct (is_backslash c) eqn:Hc; cbn [app unescape]; rewrite Hc.
    + replace (is_n c) with false.
      * rewrite IH. now rewrite <- app_assoc.
      * unfold is_backslash, is_n in *. apply Ascii.eqb_eq in Hc. now subst c.
    + rewrite IH. now rewrite <- app_assoc.
Qed.

Lemma unescape_escape (tl : list ascii) (more : list (list ascii)) :
  (forall cur, unescape tl cur = [cur]) ->
  forall first cur,
    unescape (escape first more ++ tl) cur = (cur ++ first) :: more.
Proof.
  intros Htl. induction more as [| l more IH]; intros first cur;
    cbn [escape].
  - now rewrite unescape_escape_line, Htl.
  - rewrite <- app_assoc, unescape_escape_line. cbn [app unescape].
    change (is_backslash "\"%char) with true.
    change (is_n "n"%char) with true. cbn iota.
    now rewrite IH.
Qed.

Lemma nul_free_escape_line (l : list ascii) :
  nul_free l -> nul_free (escape_line l).
Proof.
  induction 1 as [| c l Hc _ IH]; cbn [escape_line]; [constructor |].
  destruct (is_backslash c); repeat constructor; assumption.
Qed.

Lemma nul_free_escape (more : list (list ascii)) :
  forall first,
    nul_free first -> Forall nul_free more -> nul_free (escape first more).
Proof.
  induction more as [| l more IH]; intros first Hf Hm; cbn [escape].
  - now apply nul_free_escape_line.
  - inversion Hm as [| l' more' Hl Hmore]; subst.
    apply Forall_app. split; [now apply nul_free_escape_line |].
    repeat constructor. now apply IH.
Qed.

(** X3: lines without NUL, written with every backslash doubled and
    backslash-n between them, are the lines that [scriptlet_exec] runs,
    one [system] call each and in order; a single backslash after the
    last line changes nothing. *)
Theorem scriptlet_exec_escape (rc : Z) (first : list ascii)
  (more : list (list ascii)) (rest : list ascii) :
  0 < rc -> nul_free first -> Forall nul_free more ->
  scriptlet_exec rc (escape first more ++ zero :: rest)
  = Ok (first :: more)
  /\ scriptlet_exec rc (escape first more ++ "\"%char :: zero :: rest)
     = Ok (first :: more).
Proof.
  intros Hrc Hf Hm. split.
  - rewrite scriptlet_exec_unescapes_gen
      by (try assumption; now apply nul_free_escape).
    rewrite <- (app_nil_r (escape first more)).
    now rewrite unescape_escape.
  - replace (escape first more ++ "\"%char :: zero :: rest)
      with ((escape first more ++ ["\"%char]) ++ zero :: rest)
      by (now rewrite <- app_assoc).
    rewrite scriptlet_exec_unescapes_gen; [| assumption |].
    + now rewrite unescape_escape.
    + apply Forall_app. split; [now apply nul_free_escape |].
      repeat constructor.
Qed.

End Scriptlet.

(** * The console without navigation rows *)

Section FlatRows.

Variable P : platform.

Lemma relevant_setting_from_spec (s : settings) (l : list setting) :
  forall cnt n,
    0 <= cnt <= n ->
    cnt + Z.of_nat (List.length (filter (relevant P s) l)) < 2 ^ 32 ->
    relevant_setting_from P s l cnt n =
      match nth_error (filter (relevant P s) l) (Z.to_nat (n - cnt)) with
      | Some d => inl d
      | None => inr (cnt + Z.of_nat (List.length (filter (relevant P s) l)))
      end.
Proof.
  induction l as [| d l IH]; intros cnt n Hc Hb;
    cbn [relevant_setting_from filter].
  - rewrite nth_error_nil. cbn. f_equal. lia.
  - cbn [filter] in Hb. destruct (relevant P s d).
    + cbn [List.length] in Hb. destruct (Z.eqb_spec cnt n) as [-> | Hne].
      * now rewrite Z.sub_diag.
      * rewrite u32_small by (unfold is_u32; lia).
        rewrite IH by lia.
        replace (Z.to_nat (n - cnt))
          with (S (Z.to_nat (n - (cnt + 1)))) by lia.
        cbn [nth_error List.length].
        destruct (nth_error _ _); [reflexivity | f_equal; lia].
    + now apply IH.
Qed.

(** X4: with fewer than 2^32 relevant settings, [relevant_setting]
    returns the n'th relevant setting of the table for every index below
    their number and their number for every index from it on, and
    [relevant_setting_cnt] is that number. *)
Theorem relevant_setting_nth (s : settings) (n : Z) :
  is_u32 n ->
  Z.of_nat (List.length (relevant_settings P s)) < 2 ^ 32 ->
  relevant_setting P s n =
    match nth_error (relevant_settings P s) (Z.to_nat n) with
    | Some d => inl d
    | None => inr (Z.of_nat (List.length (relevant_settings P s)))
    end
  /\ relevant_setting_cnt P s
     = Some (Z.of_nat (List.length (relevant_settings P s))).
Proof.
  unfold is_u32, relevant_settings, relevant_setting_cnt, relevant_setting.
  intros Hn Hc. split.
  - rewrite relevant_setting_from_spec by lia. now rewrite Z.sub_0_r.
  - rewrite relevant_setting_from_spec by (unfold UINT_MAX; lia).
    rewrite Z.sub_0_r.
    destruct (nth_error _ _) eqn:Hnth; [| reflexivity].
    assert (Hlt : (Z.to_nat UINT_MAX
                   < List.length (filter (relevant P s) (SETTINGS P)))%nat)
      by (apply nth_error_Some; congruence).
    unfold UINT_MAX in Hlt. lia.
Qed.

Lemma row_settings_flat (s : settings) (l : list setting) :
  forall k cnt n,
    0 <= k -> 0 <= cnt ->
    k + cnt + Z.of_nat (List.length (filter (relevant P s) l)) < 2 ^ 32 ->
    row_settings P s l (k + cnt) (k + n) =
      match relevant_setting_from P s l cnt n with
      | inl d => inl (SETTING_ROW d)
      | inr c => inr (k + c)
      end.
Proof.
  induction l as [| d l IH]; intros k cnt n Hk Hc Hb;
    cbn [row_settings relevant_setting_from filter]; [reflexivity |].
  cbn [filter] in Hb. destruct (relevant P s d); [| now apply IH].
  cbn [List.length] in Hb.
  destruct (Z.eqb_spec cnt n) as [-> | Hne].
  - now rewrite Z.eqb_refl.
  - rewrite (proj2 (Z.eqb_neq (k + cnt) (k + n))) by lia.
    rewrite !u32_small by (unfold is_u32; lia).
    replace (k + cnt + 1) with (k + (cnt + 1)) by lia.
    apply IH; lia.
Qed.

(** X5: the row enumerator of the navigating console continues the
    enumeration of the console without navigation rows: past the parent
    and child rows of a scope, [row] gives the setting that
    [relevant_setting] gives at the index less those rows, and the count
    that [relevant_setting] gives plus those rows. *)
Theorem row_after_structural (s : settings) (n : Z) :
  0 <= n -> true_count P s < 2 ^ 32 ->
  row P s (structural_count s + n) =
    match relevant_setting P s n with
    | inl d => SETTING_ROW d
    | inr c => ROW_CNT (structural_count s + c)
    end.
Proof.
  intros Hn Hc.
  assert (Hlen : true_count P s
                 = structural_count s
                   + Z.of_nat (List.length
                                 (filter (relevant P s) (SETTINGS P)))).
  { unfold true_count, canonical_rows, structural_count.
    rewrite !length_app, !length_map.
    destruct (parent s); cbn [List.length]; lia. }
  assert (Hk : 0 <= Z.of_nat (List.length (children s))) by lia.
  unfold row, relevant_setting, structural_count in *.
  set (kids := children s) in *.
  assert (Hkids : forall cnt,
             0 <= cnt ->
             cnt + Z.of_nat (List.length kids) < 2 ^ 32 ->
             row_children kids cnt (cnt + Z.of_nat (List.length kids) + n)
             = inr (cnt + Z.of_nat (List.length kids))).
  { intros cnt Hcnt Hb. rewrite row_children_spec by lia.
    destruct (nth_error kids _) eqn:Hnth; [| reflexivity].
    assert (Hlt : (Z.to_nat (cnt + Z.of_nat (List.length kids) + n - cnt)
                   < List.length kids)%nat)
      by (apply nth_error_Some; congruence).
    lia. }
  destruct (parent s) as [p |].
  - destruct (Z.eqb_spec 0 (1 + Z.of_nat (List.length kids) + n)); [lia |].
    rewrite u32_small by (unfold is_u32; lia).
    replace (1 + Z.of_nat (List.length kids) + n)
      with (0 + 1 + Z.of_nat (List.length kids) + n) by lia.
    rewrite (Hkids (0 + 1)) by lia.
    replace (0 + 1 + Z.of_nat (List.length kids))
      with (0 + 1 + Z.of_nat (List.length kids) + 0) at 1 by lia.
    rewrite row_settings_flat by lia.
    replace (0 + 1 + Z.of_nat (List.length kids))
      with (1 + Z.of_nat (List.length kids)) by lia.
    now destruct (relevant_setting_from P s (SETTINGS P) 0 n).
  - rewrite (Hkids 0) by lia.
    replace (0 + Z.of_nat (List.length kids))
      with (0 + Z.of_nat (List.length kids) + 0) at 1 by lia.
    rewrite row_settings_flat by lia.
    now destruct (relevant_setting_from P s (SETTINGS P) 0 n).
Qed.

End FlatRows.

(** * More on the scroll window and the navigator *)

Section MoreScroll.

Variable P : platform.

(** X6: from a window that starts at a multiple of 16, the two loops of
    [reveal] end for every index up to 2^32 - 16 and leave the window at
    the start of the page of 16 that holds the index. *)
Theorem jump_scroll_page (fv n : Z) :
  is_u32 fv -> aligned fv -> 0 <= n <= 2 ^ 32 - SETTINGS_LIST_ROWS ->
  jump_scroll fv n = Ok (n - n mod SETTINGS_LIST_ROWS).
Proof.
  intros Hfv Ha Hn.
  destruct (jump_scroll_runs fv n Hfv Ha Hn) as [fv' Hrun].
  rewrite Hrun. f_equal.
  apply (jump_scroll_exit aligned) in Hrun;
    auto using aligned_up, aligned_down;
    [| unfold is_u32, SETTINGS_LIST_ROWS in *; lia].
  destruct Hrun as [Ha' [_ Hwin]].
  unfold aligned, SETTINGS_LIST_ROWS in *.
  apply Z.mod_divide in Ha'; [| lia]. destruct Ha' as [q ->].
  assert (Hq : n / 16 = q)
    by (symmetry; apply Z.div_unique with (r := n - q * 16); lia).
  rewrite Z.mod_eq by lia. rewrite Hq. lia.
Qed.

(** ** What the widget functions do to the screen position *)

Lemma load_setting_screen (st : store P) (w w' : setting_widget P) :
  load_setting P st w = Ok w' ->
  scr_row w' = scr_row w /\ scr_col w' = scr_col w.
Proof.
  unfold load_setting. intros H. bind_ok H. injection H as <-.
  split; reflexivity.
Qed.

Lemma select_setting_screen (st : store P) (w w' : setting_widget P) (i : Z) :
  select_setting P st w i = Ok w' ->
  scr_row w' = u32 (SETTINGS_LIST_ROW + i - first_visible w)
  /\ scr_col w' = SETTINGS_LIST_COL.
Proof.
  unfold select_setting. intros H. apply load_setting_screen in H.
  exact H.
Qed.

Lemma edit_setting_screen (w : setting_widget P) (key : Z) :
  scr_row (snd (edit_setting P w key)) = scr_row w
  /\ scr_col (snd (edit_setting P w key)) = scr_col w.
Proof.
  unfold edit_setting. destruct (edit_editbox P _ _ _) as [k [box v]].
  split; reflexivity.
Qed.

(** After [reveal] the index lies in the window; when the window was
    moved, the widget stands on the row of the index. *)
Lemma reveal_window (st : store P) (w w' : setting_widget P) (n : Z)
  (out : list (event P)) :
  is_u32 n -> is_u32 (first_visible w) -> aligned (first_visible w) ->
  reveal P st w n = Ok (w', out) ->
  first_visible w' <= n < first_visible w' + SETTINGS_LIST_ROWS
  /\ (w' = w
      \/ (ro w' = row P (w_settings w) n
          /\ scr_row w' = u32 (SETTINGS_LIST_ROW + n - first_visible w')
          /\ scr_col w' = SETTINGS_LIST_COL)).
Proof.
  intros Hn Hfv Ha. unfold reveal.
  destruct (on_screen (first_visible w) n) eqn:Hon; intros H.
  - injection H as <- _. split; [| now left].
    assert (Hfv' : 0 <= first_visible w <= 2 ^ 32 - SETTINGS_LIST_ROWS).
    { unfold aligned, is_u32, SETTINGS_LIST_ROWS in *.
      apply Z.mod_divide in Ha; [| lia]. destruct Ha as [q Hq]. lia. }
    rewrite on_screen_window in Hon by assumption.
    rewrite andb_true_iff, Z.leb_le, Z.ltb_lt in Hon. exact Hon.
  - bind_ok H. bind_ok H. destruct a0 as [w1 out1]. bind_ok H.
    injection H as <- _.
    apply (jump_scroll_exit (fun _ => True)) in E; auto.
    destruct E as [_ [_ Hwin]].
    apply draw_visible_frame in E0. destruct E0 as [S1 [T1 F1]].
    cbn in S1, T1, F1.
    pose proof (select_setting_screen _ _ _ _ E1) as [Hrow Hcol].
    apply select_setting_frame in E1.
    destruct E1 as [[S2 [T2 F2]] [R2 _]].
    split; [congruence |]. right. repeat split; congruence.
Qed.

End MoreScroll.

Section MoreNavigator.

Variable P : platform.

Ltac keys_apart := first [tauto | apply not_eq_sym; tauto].

Ltac split_all := repeat match goal with |- _ /\ _ => split end.

(** ** The shape of one turn *)

(** How the [switch] of the Viewing state reaches a [break]: nothing
    moves and the widget stays or starts to edit an editable row; or the
    delete key deletes and selects the index again; or a Down or Up key
    passes its guard and calls [reveal] on the next index. *)
Lemma viewing_switch_shape (w w' : setting_widget P) (st st' : store P)
  (cur next key : Z) (out : list (event P)) :
  viewing_switch P w st cur key = Ok (Break w' st' out next) ->
  (next = cur /\ st' = st
   /\ (w' = w
       \/ (editable P (ro w) /\ w' = snd (edit_setting P w key))))
  \/ (next = cur /\ key = CTRL_D P
      /\ exists d, ro w = SETTING_ROW d
                   /\ st' = delete_setting P st (w_settings w) d
                   /\ select_setting P st' w cur = Ok w')
  \/ (st' = st /\ reveal P st w next = Ok (w', out)
      /\ ((key = KEY_DOWN P /\ cur < u32 (total_rows w - 1)
           /\ next = u32 (cur + 1))
          \/ (key = KEY_UP P /\ cur > 0 /\ next = u32 (cur - 1)))).
Proof.
  unfold viewing_switch.
  assert (Hdef : default_key P w st cur key = Break w' st' out next ->
            next = cur /\ st' = st
            /\ (w' = w
                \/ (editable P (ro w) /\ w' = snd (edit_setting P w key)))).
  { unfold default_key, editable.
    destruct (ro w) as [p | c | d | cnt];
      [| | destruct (TAG_READONLY P (tag d)) eqn:Hread; cbn [negb] |];
      intros H; injection H as <- <- _ <-; split_all; auto.
    right. split; [exists d; auto | reflexivity]. }
  destruct (Z.eqb_spec key (KEY_DOWN P)) as [Hdown | _].
  { destruct (cur <? u32 (total_rows w - 1)) eqn:Hlt; intros H.
    - bind_ok H. destruct a as [w1 out1]. injection H as <- <- <- <-.
      apply Z.ltb_lt in Hlt. right. right. split_all; auto.
    - injection H as <- <- _ <-. left. split_all; auto. }
  destruct (Z.eqb_spec key (KEY_UP P)) as [Hup | _].
  { destruct (cur >? 0) eqn:Hgt; intros H.
    - bind_ok H. destruct a as [w1 out1]. injection H as <- <- <- <-.
      assert (cur > 0) by (destruct (Z.gtb_spec cur 0); [lia | discriminate]).
      right. right. split_all; auto.
    - injection H as <- <- _ <-. left. split_all; auto. }
  destruct (Z.eqb_spec key (CTRL_D P)) as [Hdel | _].
  { destruct (ro w) as [p | c | d | cnt] eqn:Hro; intros H.
    1,2,4: injection H as <- <- _ <-; left; split_all; auto.
    bind_ok H. injection H as <- <- _ <-.
    right. left. split_all; auto. exists d. auto. }
  destruct (key =? CTRL_X P); [discriminate |].
  destruct ((key =? CR P) || (key =? LF P)).
  { destruct (ro w) as [p | c | d | cnt] eqn:Hro; intros H.
    - discriminate H.
    - discriminate H.
    - injection H as H. left. rewrite <- Hro in *. now apply Hdef.
    - cbn in H. destruct (cnt =? 0); discriminate H. }
  intros H. injection H as H. left. now apply Hdef.
Qed.

(** A turn in the Viewing state that goes round again. *)
Lemma viewing_turn_shape (l l' : loop_state P) (key : Z) :
  editing (widget l) = false ->
  main_loop_iter P l key = Ok (Continue l') ->
  exists w' out next,
    viewing_switch P (widget l) (lstore l) (current l) key
    = Ok (Break w' (lstore l') out next)
    /\ current l' = next
    /\ ((next = current l /\ widget l' = w')
        \/ (next <> current l
            /\ select_setting P (lstore l') w' next = Ok (widget l'))).
Proof.
  intros Hed. unfold main_loop_iter. intros H. bind_ok H.
  rewrite Hed in H. unfold viewing_keys in H. bind_ok H.
  destruct a0 as [w' st' out next | target]; [| discriminate H].
  destruct (Z.eqb_spec next (current l)) as [Heq | Hne]; cbn [negb] in H.
  - injection H as <-. exists w', out, next. cbn. auto.
  - bind_ok H. injection H as <-. exists w', out, next. cbn. auto.
Qed.

(** A turn in the Editing state: it always goes round again. *)
Lemma editing_turn_shape (l l' : loop_state P) (key : Z) :
  editing (widget l) = true ->
  main_loop_iter P l key = Ok (Continue l') ->
  let key' := fst (edit_setting P (widget l) key) in
  let w1 := snd (edit_setting P (widget l) key) in
  current l' = current l
  /\ (((key' = CR P \/ key' = LF P)
       /\ exists d, ro w1 = SETTING_ROW d
                    /\ lstore l' = snd (storef_setting P (lstore l)
                                          (w_settings w1) d (value w1))
                    /\ load_setting P (lstore l') w1 = Ok (widget l'))
      \/ (key' <> CR P /\ key' <> LF P /\ lstore l' = lstore l
          /\ (load_setting P (lstore l) w1 = Ok (widget l')
              \/ widget l' = w1))).
Proof.
  intros Hed. unfold main_loop_iter. intros H. bind_ok H.
  rewrite Hed in H. unfold editing_keys in H.
  destruct (edit_setting P (widget l) key) as [key' w1]. cbn [fst snd].
  destruct (Z.eqb_spec key' (CR P)) as [Hcr | Hcr];
    [| destruct (Z.eqb_spec key' (LF P)) as [Hlf | Hlf]]; cbn [orb] in H.
  1,2: unfold save_setting in H; bind_ok H; destruct a0 as [rc st'];
    bind_ok H; destruct (ro w1) as [p | c | d | cnt] eqn:Hro;
    cbn [ro_u_setting bind] in E0; try discriminate E0;
    injection E0 as Estore; bind_ok H; injection H as <-;
    cbn [current lstore widget]; split; [reflexivity |]; left;
    (split; [auto |]); exists d; rewrite Estore; cbn [snd]; auto.
  destruct (key' =? CTRL_C P).
  - bind_ok H. injection H as <-. cbn [current lstore widget].
    split; [reflexivity |]. right. auto.
  - injection H as <-. cbn [current lstore widget].
    split; [reflexivity |]. right. auto.
Qed.

(** ** The selection and the widget agree *)

Lemma main_loop_start_coherent (s : settings) (st : store P)
  (scr : list (event P)) (l : loop_state P) :
  main_loop_start P s st scr = Ok l -> coherent l.
Proof.
  intros Hstart.
  pose proof (main_loop_start_runs P _ _ _ _ Hstart)
    as [[_ [Hr _]] [Hs [_ [Hcur _]]]].
  unfold main_loop_start in Hstart. bind_ok Hstart.
  destruct a as [w out]. injection Hstart as <-.
  cbn [widget current] in *. unfold init_widget in E. bind_ok E.
  apply reveal_window in E; cbn [first_visible];
    [| unfold is_u32; lia | unfold is_u32, SETTINGS_LIST_ROWS; lia
     | reflexivity ].
  destruct E as [Hwin Hsel]. unfold is_u32, SETTINGS_LIST_ROWS in *.
  assert (Hfv : first_visible w = 0) by lia.
  destruct Hsel as [-> | [Hro [Hrow Hcol]]]; [cbn in Hfv; lia |].
  unfold coherent. cbn [widget current]. cbn [w_settings] in Hro.
  rewrite Hfv in *. unfold is_u32, SETTINGS_LIST_ROWS.
  split_all; try lia; try assumption; try congruence.
Qed.

Lemma main_loop_iter_coherent (l l' : loop_state P) (key : Z) :
  widget_inv (widget l) -> coherent l ->
  main_loop_iter P l key = Ok (Continue l') ->
  coherent l'.
Proof.
  intros [Ha [Hr _]] [Hcu [Hwin [Hrow [Hcol Hro]]]] Hturn.
  assert (Hsel : forall st w w' n,
             first_visible w <= n < first_visible w + SETTINGS_LIST_ROWS ->
             select_setting P st w n = Ok w' ->
             first_visible w' = first_visible w
             /\ scr_row w' = SETTINGS_LIST_ROW + (n - first_visible w)
             /\ scr_col w' = SETTINGS_LIST_COL
             /\ ro w' = row P (w_settings w') n).
  { intros st w w' n Hn Hs.
    pose proof (select_setting_screen P _ _ _ _ Hs) as [Hrow' Hcol'].
    apply select_setting_frame in Hs. destruct Hs as [[S1 [_ F1]] [R1 _]].
    split_all; try congruence.
    rewrite Hrow'. unfold SETTINGS_LIST_ROW, SETTINGS_LIST_ROWS in *.
    rewrite u32_small; unfold is_u32; lia. }
  destruct (editing (widget l)) eqn:Hed.
  - apply editing_turn_shape in Hturn; [| exact Hed].
    cbn zeta in Hturn. destruct Hturn as [Hcur Hcase].
    pose proof (edit_setting_frame P (widget l) key) as [[S1 [_ F1]] [R1 _]].
    pose proof (edit_setting_screen P (widget l) key) as [Hrow1 Hcol1].
    assert (Hload : forall st,
               load_setting P st (snd (edit_setting P (widget l) key))
               = Ok (widget l') -> coherent l').
    { intros st Hl.
      pose proof (load_setting_screen P _ _ _ Hl) as [Hrow2 Hcol2].
      apply load_setting_frame in Hl. destruct Hl as [[S2 [_ F2]] [R2 _]].
      unfold coherent. rewrite Hcur, F2, F1, Hrow2, Hrow1, Hcol2, Hcol1,
        R2, R1, S2, S1. split_all; first [assumption | lia]. }
    destruct Hcase as [[_ [d [_ [_ Hl]]]] | [_ [_ [_ [Hl | Hw]]]]];
      try (now apply (Hload _ Hl)).
    unfold coherent. rewrite Hcur, Hw, F1, Hrow1, Hcol1, R1, S1.
    split_all; first [assumption | lia].
  - apply viewing_turn_shape in Hturn; [| exact Hed].
    destruct Hturn as [w' [out [next [Hsw [Hcur Hmove]]]]].
    apply viewing_switch_shape in Hsw.
    destruct Hsw as [[Hn [_ Hw]] | [[Hn [_ [d [_ [_ Hs]]]]]
                                   | [_ [Hrev Hkey]]]].
    + destruct Hmove as [[_ Hl] | [Hne _]]; [| contradiction].
      unfold coherent. rewrite Hcur, Hn, Hl.
      destruct Hw as [-> | [_ ->]]; [split_all; first [assumption | lia] |].
      pose proof (edit_setting_frame P (widget l) key)
        as [[S1 [_ F1]] [R1 _]].
      pose proof (edit_setting_screen P (widget l) key) as [Hrow1 Hcol1].
      rewrite F1, Hrow1, Hcol1, R1, S1. split_all; first [assumption | lia].
    + destruct Hmove as [[_ Hl] | [Hne _]]; [| contradiction].
      apply Hsel in Hs; [| exact Hwin].
      destruct Hs as [F1 [Hrow1 [Hcol1 R1]]].
      unfold coherent. rewrite Hcur, Hn, Hl, F1, Hrow1, Hcol1.
      split_all; first [assumption | lia].
    + assert (Hnext : is_u32 next)
        by (destruct Hkey as [[_ [_ ->]] | [_ [_ ->]]]; apply u32_range).
      pose proof (reveal_aligned P _ _ _ _ _ Hnext Hr Ha Hrev)
        as [_ [_ [Sr _]]].
      apply reveal_window in Hrev; try assumption.
      destruct Hrev as [Hwin' Hsel'].
      destruct Hmove as [[Hn Hl] | [_ Hs]].
      * unfold coherent. rewrite Hcur, Hl.
        destruct Hsel' as [-> | [Hro' [Hrow' Hcol']]].
        -- rewrite Hn. split_all; first [assumption | lia].
        -- split_all; try assumption; try lia.
           ++ rewrite Hrow'.
              unfold SETTINGS_LIST_ROW, SETTINGS_LIST_ROWS in *.
              rewrite u32_small; unfold is_u32; lia.
           ++ congruence.
      * apply Hsel in Hs; [| exact Hwin'].
        destruct Hs as [F1 [Hrow1 [Hcol1 R1]]].
        unfold coherent. rewrite Hcur, F1, Hrow1, Hcol1.
        split_all; first [assumption | lia].
Qed.

(** X7: in every state of a session the selected index lies in the
    visible window of 16 rows, the widget holds the row that [row]
    gives for that index in the current scope, and it is drawn in column
    1 of the list row of that index, one of the screen rows 3 to 18. *)
Theorem selection_shown (l : loop_state P) :
  in_session P l ->
  coherent l
  /\ SETTINGS_LIST_ROW <= scr_row (widget l)
     < SETTINGS_LIST_ROW + SETTINGS_LIST_ROWS.
Proof.
  intros Hin.
  assert (Hco : coherent l).
  { induction Hin as [s st scr l Hstart | l key l' Hin IH Hturn
                     | l key s' st scr l' _ _ _ Hstart].
    - now apply main_loop_start_coherent in Hstart.
    - apply (main_loop_iter_coherent l l' key); try assumption.
      now apply in_session_inv.
    - now apply main_loop_start_coherent in Hstart. }
  split; [exact Hco |].
  destruct Hco as [_ [Hwin [Hrow _]]]. rewrite Hrow.
  unfold SETTINGS_LIST_ROWS in *. lia.
Qed.

(** ** Editing and the store *)

Lemma main_loop_iter_editable (l l' : loop_state P) (key : Z) :
  (editing (widget l) = true -> editable P (ro (widget l))) ->
  main_loop_iter P l key = Ok (Continue l') ->
  editing (widget l') = true -> editable P (ro (widget l')).
Proof.
  intros Hinv Hturn Hed'.
  destruct (editing (widget l)) eqn:Hed.
  - apply editing_turn_shape in Hturn; [| exact Hed].
    cbn zeta in Hturn. destruct Hturn as [_ Hcase].
    pose proof (edit_setting_frame P (widget l) key) as [_ [R1 _]].
    destruct Hcase as [[_ [d [_ [_ Hl]]]] | [_ [_ [_ [Hl | Hw]]]]].
    + apply load_setting_frame in Hl. destruct Hl as [_ [_ Hoff]].
      congruence.
    + apply load_setting_frame in Hl. destruct Hl as [_ [_ Hoff]].
      congruence.
    + rewrite Hw, R1. now apply Hinv.
  - apply viewing_turn_shape in Hturn; [| exact Hed].
    destruct Hturn as [w' [out [next [Hsw [_ Hmove]]]]].
    destruct Hmove as [[_ Hl] | [_ Hs]].
    + rewrite Hl in *. apply viewing_switch_shape in Hsw.
      destruct Hsw as [[_ [_ Hw]] | [[_ [_ [d [_ [_ Hs]]]]]
                                    | [_ [Hrev _]]]].
      * destruct Hw as [-> | [Hable ->]]; [congruence |].
        pose proof (edit_setting_frame P (widget l) key) as [_ [R1 _]].
        now rewrite R1.
      * apply select_setting_frame in Hs. destruct Hs as [_ [_ Hoff]].
        congruence.
      * apply reveal_cases in Hrev.
        destruct Hrev as [[_ [-> _]] | [_ [_ [_ [_ [_ [Hoff _]]]]]]];
          congruence.
    + apply select_setting_frame in Hs. destruct Hs as [_ [_ Hoff]].
      congruence.
Qed.

(** X8: in every Editing state of a session the widget is on a Setting
    row whose tag is not read-only; it is the setting that a confirm
    passes to [storef_setting]. *)
Theorem editing_only_editable (l : loop_state P) :
  in_session P l -> editing (widget l) = true ->
  editable P (ro (widget l)).
Proof.
  intros Hin.
  assert (Hstart : forall s st scr l0,
             main_loop_start P s st scr = Ok l0 ->
             editing (widget l0) = true -> editable P (ro (widget l0))).
  { intros s st scr l0 H Hed. unfold main_loop_start in H. bind_ok H.
    destruct a as [w out]. injection H as <-. cbn [widget] in Hed.
    unfold init_widget in E. bind_ok E. apply reveal_cases in E.
    destruct E as [[_ [-> _]] | [_ [_ [_ [_ [_ [Hoff _]]]]]]];
      cbn in *; congruence. }
  induction Hin as [s st scr l H | l key l' _ IH Hturn
                   | l key s' st scr l' _ _ _ H].
  - now apply (Hstart s st scr).
  - now apply (main_loop_iter_editable l l' key).
  - now apply (Hstart s' st scr).
Qed.

(** X9: a turn of the loop leaves the store as it was, but for two
    calls: [storef_setting] on the row's setting when the line editor
    hands back CR or LF in the Editing state, and [delete_setting] on
    the row's setting at the delete key in the Viewing state. *)
Theorem store_changes_by_save_or_delete (l : loop_state P) (key : Z)
  (o : outcome P) :
  main_loop_iter P l key = Ok o ->
  let st' := match o with
             | Continue l' => lstore l'
             | Return _ st _ => st
             end in
  st' = lstore l
  \/ (editing (widget l) = true
      /\ (fst (edit_setting P (widget l) key) = CR P
          \/ fst (edit_setting P (widget l) key) = LF P)
      /\ exists d,
           ro (widget l) = SETTING_ROW d
           /\ st' = snd (storef_setting P (lstore l) (w_settings (widget l))
                           d (value (snd (edit_setting P (widget l) key)))))
  \/ (editing (widget l) = false /\ key = CTRL_D P
      /\ exists d,
           ro (widget l) = SETTING_ROW d
           /\ st' = delete_setting P (lstore l) (w_settings (widget l)) d).
Proof.
  intros Hturn. destruct o as [l' | next st scr]; cbn zeta.
  - destruct (editing (widget l)) eqn:Hed.
    + apply editing_turn_shape in Hturn; [| exact Hed].
      cbn zeta in Hturn. destruct Hturn as [_ Hcase].
      pose proof (edit_setting_frame P (widget l) key)
        as [[S1 _] [R1 _]].
      destruct Hcase as [[Hkey [d [Hro [Hst _]]]] | [_ [_ [Hst _]]]];
        [| now left].
      right. left. split; [reflexivity |]. split; [exact Hkey |].
      exists d. split; congruence.
    + apply viewing_turn_shape in Hturn; [| exact Hed].
      destruct Hturn as [w' [out [next [Hsw _]]]].
      apply viewing_switch_shape in Hsw.
      destruct Hsw as [[_ [Hst _]] | [[_ [Hkey [d [Hro [Hst _]]]]]
                                     | [Hst _]]];
        [now left | | now left].
      right. right. split; [reflexivity |]. split; [exact Hkey |].
      exists d. auto.
  - left. unfold main_loop_iter in Hturn. bind_ok Hturn.
    destruct (editing (widget l)).
    + unfold editing_keys in Hturn.
      destruct (edit_setting P (widget l) key) as [key' w1].
      destruct ((key' =? CR P) || (key' =? LF P)).
      * bind_ok Hturn. destruct a0 as [rc st0]. bind_ok Hturn.
        bind_ok Hturn. discriminate Hturn.
      * destruct (key' =? CTRL_C P); [bind_ok Hturn |];
          discriminate Hturn.
    + unfold viewing_keys in Hturn. bind_ok Hturn.
      destruct a0 as [w' st' out nxt | target].
      * destruct (negb (nxt =? current l)); [bind_ok Hturn |];
          discriminate Hturn.
      * now injection Hturn as _ <- _.
Qed.

(** ** How the loop ends *)

Lemma viewing_switch_leave (w : setting_widget P) (st : store P)
  (cur key : Z) (target : option settings) :
  viewing_switch P w st cur key = Ok (Leave target) ->
  (key = CTRL_X P /\ target = None)
  \/ ((key = CR P \/ key = LF P) /\ ro_u_child (ro w) = Ok target).
Proof.
  unfold viewing_switch.
  assert (Hdef : forall k, Ok (default_key P w st cur k)
                           <> Ok (Leave target)).
  { intros k. unfold default_key.
    destruct (ro w) as [p | c | d | cnt];
      [| | destruct (negb (TAG_READONLY P (tag d))) |]; discriminate. }
  destruct (key =? KEY_DOWN P).
  { destruct (cur <? _); intros H; [bind_ok H; destruct a |];
      discriminate H. }
  destruct (key =? KEY_UP P).
  { destruct (cur >? 0); intros H; [bind_ok H; destruct a |];
      discriminate H. }
  destruct (key =? CTRL_D P).
  { destruct (ro w); intros H; try discriminate H.
    bind_ok H. discriminate H. }
  destruct (Z.eqb_spec key (CTRL_X P)) as [Hx | _].
  { intros H. injection H as <-. now left. }
  destruct (Z.eqb_spec key (CR P)) as [Hcr | _];
    [| destruct (Z.eqb_spec key (LF P)) as [Hlf | _]]; cbn [orb].
  3: intros H; now apply Hdef in H.
  all: destruct (ro w) as [p | c | d | cnt] eqn:Hro; intros H;
    try (now apply Hdef in H); right; (split; [auto |]);
    bind_ok H; injection H as <-; first [exact E | reflexivity].
Qed.

(** X10: in a session [main_loop] returns only at the exit key, with
    NULL, or at CR or LF on a Parent or Child row, with the scope of
    that row; it returns from the Viewing state and leaves the store as
    it is.  No failed save and no refused key ends the loop. *)
Theorem loop_ends_by_exit_or_visit (l : loop_state P) (key : Z)
  (next : option settings) (st : store P) (scr : list (event P)) :
  in_session P l ->
  main_loop_iter P l key = Ok (Return next st scr) ->
  editing (widget l) = false /\ st = lstore l
  /\ ((key = CTRL_X P /\ next = None)
      \/ ((key = CR P \/ key = LF P)
          /\ exists target,
               next = Some target
               /\ (ro (widget l) = PARENT_ROW target
                   \/ ro (widget l) = CHILD_ROW target))).
Proof.
  intros Hin Hturn. apply in_session_inv in Hin.
  destruct Hin as [_ [_ [Hv He]]].
  unfold main_loop_iter in Hturn. bind_ok Hturn.
  destruct (editing (widget l)) eqn:Hed.
  - unfold editing_keys in Hturn.
    destruct (edit_setting P (widget l) key) as [key' w1].
    destruct ((key' =? CR P) || (key' =? LF P)).
    + bind_ok Hturn. destruct a0 as [rc st0]. bind_ok Hturn.
      bind_ok Hturn. discriminate Hturn.
    + destruct (key' =? CTRL_C P); [bind_ok Hturn |]; discriminate Hturn.
  - unfold viewing_keys in Hturn. bind_ok Hturn.
    destruct a0 as [w' st' out nxt | target].
    + destruct (negb (nxt =? current l)); [bind_ok Hturn |];
        discriminate Hturn.
    + injection Hturn as <- <- _. split; [reflexivity |].
      split; [reflexivity |].
      apply viewing_switch_leave in E0.
      destruct E0 as [Hx | [Hkey Hchild]]; [now left |]. right.
      split; [exact Hkey |].
      destruct (ro (widget l)) as [p | c | d | cnt]; cbn in Hchild, Hv;
        try contradiction; try discriminate Hchild;
        injection Hchild as <-; eauto.
Qed.

(** ** The loop runs *)

Lemma canonical_rows_valid (s : settings) :
  Forall ro_valid (canonical_rows P s).
Proof.
  unfold canonical_rows.
  apply Forall_app; split; [| apply Forall_app; split].
  - destruct (parent s); repeat constructor.
  - apply Forall_forall. intros r Hr. apply in_map_iff in Hr.
    destruct Hr as [c [<- _]]. exact I.
  - apply Forall_forall. intros r Hr. apply in_map_iff in Hr.
    destruct Hr as [d [<- _]]. exact I.
Qed.

Lemma row_valid (s : settings) (n : Z) :
  0 <= n < true_count P s -> true_count P s < 2 ^ 32 ->
  ro_valid (row P s n).
Proof.
  intros Hn Hc. rewrite row_nth_canonical by (unfold is_u32; lia).
  destruct (nth_error _ _) as [r |] eqn:Hnth.
  - apply nth_error_In in Hnth.
    pose proof (canonical_rows_valid s) as Hall.
    rewrite Forall_forall in Hall. now apply Hall.
  - apply nth_error_None in Hnth. unfold true_count in *. lia.
Qed.

Lemma load_setting_total (st : store P) (w : setting_widget P) :
  ro_valid (ro w) -> exists w', load_setting P st w = Ok w'.
Proof.
  unfold load_setting. destruct (ro w); cbn; intros H; try contradiction;
    eexists; reflexivity.
Qed.

Lemma select_setting_total (st : store P) (w : setting_widget P) (i : Z) :
  0 <= i < true_count P (w_settings w) ->
  true_count P (w_settings w) < 2 ^ 32 ->
  exists w', select_setting P st w i = Ok w'.
Proof.
  intros Hi Hc. unfold select_setting. apply load_setting_total.
  cbn [ro]. now apply row_valid.
Qed.

Lemma draw_visible_total (st : store P) (idx : list Z) :
  forall w,
    total_rows w = true_count P (w_settings w) ->
    true_count P (w_settings w) < 2 ^ 32 ->
    exists r, draw_visible P st w idx = Ok r.
Proof.
  induction idx as [| i idx IH]; intros w Ht Hc; cbn [draw_visible].
  - eexists. reflexivity.
  - destruct (Z.ltb_spec (u32 (first_visible w + i)) (total_rows w))
      as [Hlt | _].
    + destruct (select_setting_total st w (u32 (first_visible w + i)))
        as [w1 Hs]; [| exact Hc |].
      { pose proof (u32_range (first_visible w + i)) as Hr.
        unfold is_u32 in Hr. lia. }
      rewrite Hs. cbn [bind].
      apply select_setting_frame in Hs. destruct Hs as [[S1 [T1 _]] _].
      destruct (IH w1) as [[w2 out] Hd]; [congruence | congruence |].
      rewrite Hd. cbn [bind]. eexists. reflexivity.
    + destruct (IH w Ht Hc) as [[w2 out] Hd]. rewrite Hd. cbn [bind].
      eexists. reflexivity.
Qed.

Lemma reveal_total (st : store P) (w : setting_widget P) (n : Z) :
  is_u32 (first_visible w) -> aligned (first_visible w) ->
  total_rows w = true_count P (w_settings w) ->
  true_count P (w_settings w) < 2 ^ 32 ->
  0 <= n < total_rows w -> n <= 2 ^ 32 - SETTINGS_LIST_ROWS ->
  exists r, reveal P st w n = Ok r.
Proof.
  intros Hr Ha Ht Hc Hn Hmax. unfold reveal.
  destruct (on_screen (first_visible w) n); [eexists; reflexivity |].
  destruct (jump_scroll_runs (first_visible w) n Hr Ha) as [fv Hj]; [lia |].
  rewrite Hj. cbn [bind].
  destruct (draw_visible_total st
              (map Z.of_nat (seq 0 (Z.to_nat SETTINGS_LIST_ROWS)))
              (set_first_visible P w fv)) as [[w1 out] Hd];
    [exact Ht | exact Hc |].
  rewrite Hd. cbn [bind].
  apply draw_visible_frame in Hd. destruct Hd as [S1 [T1 _]].
  cbn in S1, T1.
  destruct (select_setting_total st w1 n) as [w2 Hs];
    [rewrite S1; lia | rewrite S1; exact Hc |].
  rewrite Hs. cbn [bind]. eexists. reflexivity.
Qed.

Lemma main_loop_start_total (s : settings) (st : store P)
  (scr : list (event P)) :
  0 < true_count P s < 2 ^ 32 ->
  exists l, main_loop_start P s st scr = Ok l.
Proof.
  intros Hc. unfold main_loop_start, init_widget.
  assert (Hrow : row P s UINT_MAX = ROW_CNT (true_count P s)).
  { rewrite row_nth_canonical by (unfold is_u32, UINT_MAX; lia).
    destruct (nth_error _ _) eqn:Hnth; [| reflexivity].
    assert (Hlt : (Z.to_nat UINT_MAX < List.length (canonical_rows P s))%nat)
      by (apply nth_error_Some; congruence).
    unfold true_count, UINT_MAX in *. lia. }
  rewrite Hrow. cbn [ro_u_cnt bind].
  match goal with
  | |- context [reveal P st ?w 0] =>
      destruct (reveal_total st w 0) as [[w1 out] Hrev]
  end; cbn [first_visible total_rows w_settings];
    try reflexivity; try lia;
    [unfold is_u32, SETTINGS_LIST_ROWS; lia
    | unfold SETTINGS_LIST_ROWS; lia |].
  rewrite Hrev. cbn [bind]. eexists. reflexivity.
Qed.

(** The bounds of a scope with rows, in every state of its loop. *)
Lemma in_main_loop_bounds (s : settings) (l : loop_state P) :
  0 < true_count P s < 2 ^ 32 ->
  in_main_loop P s l ->
  widget_inv (widget l) /\ coherent l
  /\ w_settings (widget l) = s
  /\ total_rows (widget l) = true_count P s
  /\ 0 <= current l < total_rows (widget l).
Proof.
  intros Hc Hin.
  induction Hin as [st scr l Hstart | l key l' _ IH Hturn].
  - pose proof (main_loop_start_coherent _ _ _ _ Hstart) as Hco.
    apply main_loop_start_runs in Hstart.
    destruct Hstart as [Hi [Hs [Hrow [Hcur _]]]].
    apply true_count_total in Hrow; [| lia].
    split_all; try assumption; lia.
  - destruct IH as [Hi [Hco [Hs [Ht Hcur]]]].
    pose proof (main_loop_iter_coherent _ _ _ Hi Hco Hturn) as Hco'.
    apply main_loop_iter_continue in Hturn; [| exact Hi].
    destruct Hturn as [Hi' [Hs' [Ht' Hm]]].
    split_all; try assumption; try congruence.
    + unfold moved in Hm. rewrite Ht in Hm.
      rewrite (u32_small (true_count P s - 1)) in Hm
        by (unfold is_u32; lia).
      destruct Hm as [-> | [[Hlt ->] | [Hgt ->]]]; [lia | |];
        rewrite u32_small; unfold is_u32; lia.
    + rewrite Ht', Ht. unfold moved in Hm. rewrite Ht in *.
      rewrite (u32_small (true_count P s - 1)) in Hm
        by (unfold is_u32; lia).
      destruct Hm as [-> | [[Hlt ->] | [Hgt ->]]]; [lia | |];
        rewrite u32_small; unfold is_u32; lia.
Qed.

Lemma main_loop_iter_total (s : settings) (l : loop_state P) (key : Z) :
  0 < true_count P s <= 2 ^ 32 - SETTINGS_LIST_ROWS ->
  in_main_loop P s l ->
  exists o, main_loop_iter P l key = Ok o.
Proof.
  unfold SETTINGS_LIST_ROWS. intros Hc Hin.
  destruct (in_main_loop_bounds s l) as [Hi [Hco [Hs [Ht Hcur]]]];
    [lia | exact Hin |].
  destruct Hi as [Ha [Hr [Hv He]]].
  destruct (redraw_runs P (lstore l) (widget l) Hv) as [out Hout].
  unfold main_loop_iter. rewrite Hout. cbn [bind].
  assert (Hsel : forall st w i,
             w_settings w = s -> 0 <= i < true_count P s ->
             exists w', select_setting P st w i = Ok w').
  { intros st w i Hw Hi. apply select_setting_total; rewrite Hw; lia. }
  destruct (editing (widget l)) eqn:Hed.
  - destruct (He eq_refl) as [d Hro]. unfold editing_keys.
    pose proof (edit_setting_frame P (widget l) key) as [_ [R1 _]].
    destruct (edit_setting P (widget l) key) as [key' w1]. cbn [snd] in R1.
    rewrite Hro in R1.
    assert (Hload : forall st, exists w2, load_setting P st w1 = Ok w2)
      by (intros st; apply load_setting_total; rewrite R1; exact I).
    destruct ((key' =? CR P) || (key' =? LF P)).
    + unfold save_setting. rewrite R1. cbn [ro_u_setting bind].
      destruct (storef_setting P _ _ _ _) as [rc st'].
      destruct (Hload st') as [w2 Hl].
      destruct (rc =? 0); cbn [bind]; rewrite Hl; cbn [bind];
        eexists; reflexivity.
    + destruct (key' =? CTRL_C P); [| eexists; reflexivity].
      destruct (Hload (lstore l)) as [w2 Hl]. rewrite Hl. cbn [bind].
      eexists. reflexivity.
  - unfold viewing_keys.
    assert (Hmove : forall n,
               0 <= n < true_count P s ->
               exists o,
                 (sw <- (' (w', out0) <- reveal P (lstore l) (widget l) n ;;
                         Ok (Break w' (lstore l) out0 n)) ;;
                  match sw with
                  | Leave target =>
                      Ok (Return target (lstore l) (screen l ++ out))
                  | Break w' st' out0 next =>
                      if negb (next =? current l)
                      then w'' <- select_setting P st' w' next ;;
                           Ok (Continue
                                 {| widget := w''; current := next;
                                    lstore := st';
                                    screen := (screen l ++ out) ++ out0
                                              ++ draw_setting P st' w' |})
                      else Ok (Continue
                                 {| widget := w'; current := current l;
                                    lstore := st';
                                    screen := (screen l ++ out) ++ out0 |})
                  end) = Ok o).
    { intros n Hn.
      destruct (reveal_total (lstore l) (widget l) n) as [[w' out0] Hrev];
        try assumption; try (rewrite Hs; lia); try lia;
        [unfold SETTINGS_LIST_ROWS; lia |].
      rewrite Hrev. cbn [bind].
      assert (Hn' : is_u32 n) by (unfold is_u32; lia).
      apply reveal_aligned in Hrev; try assumption.
      destruct Hrev as [_ [_ [S1 _]]].
      destruct (negb (n =? current l)); [| eexists; reflexivity].
      destruct (Hsel (lstore l) w' n) as [w'' Hs'']; [congruence | lia |].
      rewrite Hs''. cbn [bind]. eexists. reflexivity. }
    assert (Hdef : forall k,
               exists o,
                 (match default_key P (widget l) (lstore l) (current l) k with
                  | Leave target =>
                      Ok (Return target (lstore l) (screen l ++ out))
                  | Break w' st' out0 next =>
                      if negb (next =? current l)
                      then w'' <- select_setting P st' w' next ;;
                           Ok (Continue
                                 {| widget := w''; current := next;
                                    lstore := st';
                                    screen := (screen l ++ out) ++ out0
                                              ++ draw_setting P st' w' |})
                      else Ok (Continue
                                 {| widget := w'; current := current l;
                                    lstore := st';
                                    screen := (screen l ++ out) ++ out0 |})
                  end) = Ok o).
    { intros k. unfold default_key.
      destruct (ro (widget l)) as [p | c | d | cnt];
        [| | destruct (negb (TAG_READONLY P (tag d))) |];
        rewrite Z.eqb_refl; cbn [negb]; eexists; reflexivity. }
    unfold viewing_switch.
    destruct (key =? KEY_DOWN P).
    { destruct (Z.ltb_spec (current l) (u32 (total_rows (widget l) - 1)))
        as [Hlt | _].
      - rewrite Ht in Hlt. rewrite u32_small in Hlt by (unfold is_u32; lia).
        rewrite (u32_small (current l + 1)) by (unfold is_u32; lia).
        apply Hmove. lia.
      - cbn [bind]. rewrite Z.eqb_refl. cbn [negb]. eexists. reflexivity. }
    destruct (key =? KEY_UP P).
    { destruct (Z.gtb_spec (current l) 0) as [Hgt | _].
      - rewrite (u32_small (current l - 1)) by (unfold is_u32; lia).
        apply Hmove. lia.
      - cbn [bind]. rewrite Z.eqb_refl. cbn [negb]. eexists. reflexivity. }
    destruct (key =? CTRL_D P).
    { destruct (ro (widget l)) as [p | c | d | cnt] eqn:Hro;
        try (cbn [bind]; rewrite Z.eqb_refl; cbn [negb]; eexists;
             reflexivity).
      destruct (Hsel (delete_setting P (lstore l) (w_settings (widget l)) d)
                  (widget l) (current l)) as [w' Hs'];
        [exact Hs | lia |].
      rewrite Hs'. cbn [bind]. rewrite Z.eqb_refl. cbn [negb].
      eexists. reflexivity. }
    destruct (key =? CTRL_X P); [cbn [bind]; eexists; reflexivity |].
    destruct ((key =? CR P) || (key =? LF P)).
    { destruct (ro (widget l)) as [p | c | d | cnt] eqn:Hro;
        try contradiction; cbn [ro_u_child bind];
        try (eexists; reflexivity).
      apply Hdef. }
    cbn [bind]. apply Hdef.
Qed.

(** X11: on a scope with at least one row and at most 2^32 - 16,
    [main_loop] neither misreads the union of a row object nor scrolls
    for ever: for every sequence of keys it has returned or waits for
    the next key. *)
Theorem main_loop_runs (s : settings) (st : store P)
  (scr : list (event P)) (keys : list Z) :
  0 < true_count P s <= 2 ^ 32 - SETTINGS_LIST_ROWS ->
  exists e, main_loop P s st scr keys = Ok e.
Proof.
  intros Hc. unfold main_loop.
  destruct (main_loop_start_total s st scr) as [l Hstart];
    [unfold SETTINGS_LIST_ROWS in Hc; lia |].
  rewrite Hstart. cbn [bind].
  assert (Hin : in_main_loop P s l) by (eapply at_start; exact Hstart).
  clear Hstart. revert l Hin.
  induction keys as [| key keys IH]; intros l Hin; cbn [main_loop_keys].
  - eexists. reflexivity.
  - destruct (main_loop_iter_total s l key Hc Hin) as [o Ho].
    rewrite Ho. cbn [bind]. destruct o as [l' | next st' scr'].
    + apply IH. eapply at_turn; eassumption.
    + eexists. reflexivity.
Qed.

(** X12: in a scope with rows, at most 2^32 - 16 of them, the Down key
    on a row that is not the last selects the next index and the row
    [row] gives for it, and the Up key on a row that is not the first
    selects the index before; neither changes the store. *)
Theorem down_up_move_by_one (s : settings) (l : loop_state P) :
  0 < true_count P s <= 2 ^ 32 - SETTINGS_LIST_ROWS ->
  in_main_loop P s l -> editing (widget l) = false ->
  (current l + 1 < true_count P s ->
   exists l',
     main_loop_iter P l (KEY_DOWN P) = Ok (Continue l')
     /\ current l' = current l + 1
     /\ ro (widget l') = row P s (current l + 1)
     /\ lstore l' = lstore l)
  /\ (0 < current l ->
      exists l',
        main_loop_iter P l (KEY_UP P) = Ok (Continue l')
        /\ current l' = current l - 1
        /\ ro (widget l') = row P s (current l - 1)
        /\ lstore l' = lstore l).
Proof.
  unfold SETTINGS_LIST_ROWS. intros Hc Hin Hed.
  destruct (in_main_loop_bounds s l) as [Hi [_ [Hs [Ht Hcur]]]];
    [lia | exact Hin |].
  destruct Hi as [Ha [Hr [Hv _]]].
  destruct (redraw_runs P (lstore l) (widget l) Hv) as [out Hout].
  assert (Hmove : forall n,
             0 <= n < true_count P s -> n <> current l ->
             exists l',
               (sw <- (' (w', out0) <- reveal P (lstore l) (widget l) n ;;
                       Ok (Break w' (lstore l) out0 n)) ;;
                match sw with
                | Leave target =>
                    Ok (Return target (lstore l) (screen l ++ out))
                | Break w' st' out0 next =>
                    if negb (next =? current l)
                    then w'' <- select_setting P st' w' next ;;
                         Ok (Continue
                               {| widget := w''; current := next;
                                  lstore := st';
                                  screen := (screen l ++ out) ++ out0
                                            ++ draw_setting P st' w' |})
                    else Ok (Continue
                               {| widget := w'; current := current l;
                                  lstore := st';
                                  screen := (screen l ++ out) ++ out0 |})
                end) = Ok (Continue l')
               /\ current l' = n /\ ro (widget l') = row P s n
               /\ lstore l' = lstore l).
  { intros n Hn Hne.
    destruct (reveal_total (lstore l) (widget l) n) as [[w' out0] Hrev];
      try assumption; try (rewrite Hs; lia); try lia;
      [unfold SETTINGS_LIST_ROWS; lia |].
    rewrite Hrev. cbn [bind].
    assert (Hn' : is_u32 n) by (unfold is_u32; lia).
    apply reveal_aligned in Hrev; try assumption.
    destruct Hrev as [_ [_ [S1 _]]].
    rewrite (proj2 (Z.eqb_neq n (current l)) Hne). cbn [negb].
    destruct (select_setting_total (lstore l) w' n) as [w'' Hs''];
      [rewrite S1, Hs; lia | rewrite S1, Hs; lia |].
    rewrite Hs''. cbn [bind]. eexists. split; [reflexivity |].
    cbn [current widget lstore].
    apply select_setting_frame in Hs''. destruct Hs'' as [_ [R2 _]].
    split_all; try reflexivity. congruence. }
  split; intros Hgo; unfold main_loop_iter; rewrite Hout, Hed;
    cbn [bind]; unfold viewing_keys, viewing_switch.
  - rewrite Z.eqb_refl.
    rewrite Ht, (u32_small (true_count P s - 1)) by (unfold is_u32; lia).
    assert (Hlt : (current l <? true_count P s - 1) = true)
      by (apply Z.ltb_lt; lia).
    rewrite Hlt.
    rewrite (u32_small (current l + 1)) by (unfold is_u32; lia).
    apply Hmove; lia.
  - rewrite (eqb_false (KEY_UP P) (KEY_DOWN P))
      by (pose proof (keys_differ P); keys_apart).
    rewrite Z.eqb_refl.
    replace (current l >? 0) with true
      by (symmetry; apply Z.gtb_lt; lia).
    rewrite (u32_small (current l - 1)) by (unfold is_u32; lia).
    apply Hmove; lia.
Qed.

(** ** A scope without rows *)

Lemma draw_visible_none (st : store P) (idx : list Z) :
  forall w,
    total_rows w = 0 ->
    exists out, draw_visible P st w idx = Ok (w, out).
Proof.
  induction idx as [| i idx IH]; intros w Ht; cbn [draw_visible].
  - eexists. reflexivity.
  - rewrite Ht.
    destruct (Z.ltb_spec (u32 (first_visible w + i)) 0) as [Hlt | _].
    + pose proof (u32_range (first_visible w + i)) as Hr.
      unfold is_u32 in Hr. lia.
    + destruct (IH w Ht) as [out Hd]. rewrite Hd. cbn [bind].
      eexists. reflexivity.
Qed.

(** X13: on a scope without rows -- no parent, no child, no relevant
    setting -- [main_loop] stores the Count row in the widget and reads
    its count as the address of a setting: it does not reach its loop,
    and neither does [settings_ui]. *)
Theorem main_loop_empty_scope_faults (s : settings) (st : store P)
  (scr : list (event P)) (keys : list Z) :
  true_count P s = 0 ->
  main_loop_start P s st scr = Fault
  /\ main_loop P s st scr keys = Fault
  /\ settings_ui P s st keys = Fault.
Proof.
  intros Hc.
  assert (Hrow : forall n, is_u32 n -> row P s n = ROW_CNT 0).
  { intros n Hn. rewrite row_nth_canonical by (try exact Hn; lia).
    rewrite Hc. unfold true_count in Hc.
    destruct (canonical_rows P s); [| discriminate Hc].
    now rewrite nth_error_nil. }
  assert (Hstart : forall scr0, main_loop_start P s st scr0 = Fault).
  { intros scr0. unfold main_loop_start, init_widget.
    rewrite Hrow by (unfold is_u32, UINT_MAX; lia). cbn [ro_u_cnt bind].
    unfold reveal. cbn [first_visible total_rows].
    change (on_screen SETTINGS_LIST_ROWS 0) with false. cbn iota.
    assert (Hj : jump_scroll SETTINGS_LIST_ROWS 0 = Ok 0)
      by (vm_compute; reflexivity).
    rewrite Hj. cbn [bind].
    match goal with
    | |- context [draw_visible P st ?w ?idx] =>
        destruct (draw_visible_none st idx w eq_refl) as [out Hd];
          rewrite Hd
    end.
    cbn [bind]. unfold select_setting. cbn [w_settings].
    rewrite Hrow by (unfold is_u32; lia).
    unfold load_setting. cbn [ro ro_u_setting bind]. reflexivity. }
  split; [apply Hstart |].
  split; [unfold main_loop; now rewrite Hstart |].
  unfold settings_ui. cbn [settings_ui_loop]. unfold main_loop.
  now rewrite Hstart.
Qed.

(** ** The drawn row *)

Lemma fill_field_length (filler : ascii) (width : nat) :
  forall s, String.length (fill_field filler width s) = width.
Proof.
  induction width as [| width IH]; intros s; cbn [fill_field];
    [reflexivity |].
  destruct s; cbn [String.length]; now rewrite IH.
Qed.

Lemma append_length (a b : string) :
  String.length (a ++ b) = (String.length a + String.length b)%nat.
Proof.
  induction a as [| c a IH]; cbn [String.append String.length];
    [reflexivity |].
  now rewrite IH.
Qed.

(** X14: whatever the lengths of the name and the value, [draw_setting]
    prints exactly one line, at the position of the widget, and the line
    has 78 characters: a space, a name field of 15, a space, a value
    field of 60 and a space.  It then moves the cursor into the row of
    the widget, to the column of the value field plus the length of the
    value shown, 60 at most and 15 for the text shown for no value, and
    draws the edit box after that when the widget is editing and only
    then.  The line alone may stand between the two calls that switch
    bold on and off; nothing else is drawn. *)
Theorem draw_setting_within_row (st : store P) (w : setting_widget P) :
  exists (bold : bool) (name_field value_field : string) (k : Z),
    draw_setting P st w
    = (if bold then [Attron_bold P] else [])
      ++ [Mvprintw P (scr_row w) (scr_col w)
            (" " ++ name_field ++ " " ++ value_field ++ " ")]
      ++ (if bold then [Attroff_bold P] else [])
      ++ [Move P (scr_row w) (u32 (scr_col w + VALUE_OFFSET + k))]
      ++ (if editing w then [Draw_editbox P (editbox w)] else [])
    /\ String.length name_field = NAME_WIDTH
    /\ String.length value_field = VALUE_WIDTH
    /\ String.length (" " ++ name_field ++ " " ++ value_field ++ " ")
       = 78%nat
    /\ VALUE_OFFSET = Z.of_nat (1 + NAME_WIDTH + 1)
    /\ 0 <= k <= Z.of_nat VALUE_WIDTH
    /\ (value w = EmptyString -> k = 15)
    /\ (value w <> EmptyString ->
        k = Z.min (Z.of_nat (String.length (value w)))
              (Z.of_nat VALUE_WIDTH)).
Proof.
  unfold draw_setting.
  set (v := if String.eqb (value w) EmptyString
            then "<not specified>"%string else value w).
  set (nm := match ro w with
             | SETTING_ROW d => setting_name d
             | PARENT_ROW _ => "parent"%string
             | _ => "child"%string
             end).
  exists (match ro w with
          | SETTING_ROW d =>
              0 <=? fetch_setting_ex P st (w_settings w) d 0
          | _ => true
          end),
    (fill_field "."%char NAME_WIDTH nm),
    (fill_field " "%char VALUE_WIDTH v),
    (Z.min (Z.of_nat (String.length v)) (Z.of_nat VALUE_WIDTH)).
  split; [reflexivity |].
  split; [apply fill_field_length |].
  split; [apply fill_field_length |].
  split; [rewrite !append_length, !fill_field_length; reflexivity |].
  split; [reflexivity |].
  split; [lia |].
  split.
  - intros Hv. subst v. rewrite Hv. reflexivity.
  - intros Hv. subst v.
    destruct (String.eqb_spec (value w) EmptyString) as [He | _];
      [contradiction | reflexivity].
Qed.

(** ** Settings of the children *)

Lemma setting_row_canonical (s : settings) (d : setting) :
  In (SETTING_ROW d) (canonical_rows P s)
  <-> In d (SETTINGS P) /\ relevant P s d = true.
Proof.
  unfold canonical_rows. rewrite !in_app_iff, <- filter_In. split.
  - intros [H | [H | H]].
    + destruct (parent s); cbn [In] in H; [| contradiction].
      destruct H as [H | []]. discriminate H.
    + apply in_map_iff in H. destruct H as [c [H _]]. discriminate H.
    + apply in_map_iff in H. destruct H as [d' [H Hin]].
      now injection H as <-.
  - intros H. right. right. apply in_map_iff. now exists d.
Qed.

(** X15: a scope shows the settings of its children: every Setting row
    of a child of a scope is a Setting row of the scope as well. *)
Theorem child_settings_shown (s c : settings) (d : setting) :
  In c (children s) ->
  In (SETTING_ROW d) (canonical_rows P c) ->
  In (SETTING_ROW d) (canonical_rows P s).
Proof.
  intros Hc Hd. apply setting_row_canonical in Hd.
  destruct Hd as [Hin Hrel]. apply setting_row_canonical.
  split; [exact Hin |]. rewrite relevant_unfold.
  apply orb_true_iff. right. apply existsb_exists. now exists c.
Qed.

End MoreNavigator.

(** * More of the program on the samples *)

Lemma scriptlet_exec_unescapes_example :
  0 < 18 /\ nul_free Samples.two_lines
  /\ scriptlet_exec 18 Samples.script_buffer
     = Ok [list_ascii_of_string "dhcp net0"; list_ascii_of_string "boot a\b"].
Proof.
  assert (Hrc : 0 < 18) by lia.
  assert (Hs : nul_free Samples.two_lines) by (repeat constructor).
  split; [exact Hrc |]. split; [exact Hs |].
  exact (eq_trans
           (scriptlet_exec_unescapes 18 Samples.two_lines
              (list_ascii_of_string "left over") Hrc Hs)
           eq_refl).
Defined.

Lemma scriptlet_exec_unterminated_example :
  0 < 4 /\ nul_free (list_ascii_of_string "boot")
  /\ scriptlet_exec 4 (list_ascii_of_string "boot") = Fault.
Proof.
  assert (Hrc : 0 < 4) by lia.
  assert (Hs : nul_free (list_ascii_of_string "boot"))
    by (repeat constructor).
  split; [exact Hrc |]. split; [exact Hs |].
  exact (scriptlet_exec_unterminated 4 _ Hrc Hs).
Defined.

Lemma scriptlet_exec_escape_example :
  0 < 7 /\ nul_free (list_ascii_of_string "a\b")
  /\ Forall nul_free [list_ascii_of_string "c"]
  /\ escape (list_ascii_of_string "a\b") [list_ascii_of_string "c"]
     = list_ascii_of_string "a\\b\nc"
  /\ scriptlet_exec 7 (list_ascii_of_string "a\\b\nc" ++ [zero])
     = Ok [list_ascii_of_string "a\b"; list_ascii_of_string "c"].
Proof.
  assert (Hrc : 0 < 7) by lia.
  assert (Hf : nul_free (list_ascii_of_string "a\b"))
    by (repeat constructor).
  assert (Hm : Forall nul_free [list_ascii_of_string "c"])
    by (repeat constructor).
  split; [exact Hrc |]. split; [exact Hf |]. split; [exact Hm |].
  split; [reflexivity |].
  exact (proj1 (scriptlet_exec_escape 7 _ _ [] Hrc Hf Hm)).
Defined.

Lemma relevant_setting_nth_example :
  is_u32 1
  /\ Z.of_nat (List.length (relevant_settings Demo.demo Demo.Pscope))
     < 2 ^ 32
  /\ relevant_setting Demo.demo Demo.Pscope 1 = inl Demo.B
  /\ relevant_setting_cnt Demo.demo Demo.Pscope = Some 4.
Proof.
  assert (H1 : is_u32 1) by (unfold is_u32; lia).
  assert (Hc : Z.of_nat (List.length
                           (relevant_settings Demo.demo Demo.Pscope))
               < 2 ^ 32) by (vm_compute; reflexivity).
  split; [exact H1 |]. split; [exact Hc |].
  destruct (relevant_setting_nth Demo.demo Demo.Pscope 1 H1 Hc)
    as [Hnth Hcnt].
  split.
  - exact (eq_trans Hnth eq_refl).
  - exact (eq_trans Hcnt eq_refl).
Defined.

Lemma row_after_structural_example :
  0 <= 0 /\ true_count Demo.demo Demo.Xscope < 2 ^ 32
  /\ structural_count Demo.Xscope = 3
  /\ row Demo.demo Demo.Xscope (3 + 0) = SETTING_ROW Demo.D
  /\ relevant_setting Demo.demo Demo.Xscope 0 = inl Demo.D.
Proof.
  assert (H0 : 0 <= 0) by lia.
  assert (Hc : true_count Demo.demo Demo.Xscope < 2 ^ 32)
    by (vm_compute; reflexivity).
  split; [exact H0 |]. split; [exact Hc |]. split; [reflexivity |].
  split; [| reflexivity].
  exact (eq_trans (row_after_structural Demo.demo Demo.Xscope 0 H0 Hc)
           eq_refl).
Defined.

Lemma jump_scroll_page_example :
  is_u32 0 /\ aligned 0 /\ 0 <= 37 <= 2 ^ 32 - SETTINGS_LIST_ROWS
  /\ jump_scroll 0 37 = Ok 32.
Proof.
  assert (H0 : is_u32 0) by (unfold is_u32; lia).
  assert (Ha : aligned 0) by reflexivity.
  assert (Hn : 0 <= 37 <= 2 ^ 32 - SETTINGS_LIST_ROWS)
    by (unfold SETTINGS_LIST_ROWS; lia).
  split; [exact H0 |]. split; [exact Ha |]. split; [exact Hn |].
  exact (eq_trans (jump_scroll_page 0 37 H0 Ha Hn) eq_refl).
Defined.

Lemma selection_shown_example :
  in_session Demo.demo Demo.on_row_2
  /\ current Demo.on_row_2 = 2
  /\ ro (widget Demo.on_row_2) = SETTING_ROW Demo.B
  /\ scr_row (widget Demo.on_row_2) = 5
  /\ coherent Demo.on_row_2.
Proof.
  assert (Hs : in_session Demo.demo Demo.on_row_2).
  { apply (in_main_loop_session Demo.demo Demo.Pscope).
    apply (main_loop_reach Demo.demo Demo.Pscope [] [] [258; 258]).
    vm_compute. reflexivity. }
  split; [exact Hs |]. split; [reflexivity |]. split; [reflexivity |].
  split; [reflexivity |].
  exact (proj1 (selection_shown Demo.demo _ Hs)).
Defined.

Lemma editing_only_editable_example :
  in_session Demo.demo Demo.editing_bad
  /\ editing (widget Demo.editing_bad) = true
  /\ ro (widget Demo.editing_bad) = SETTING_ROW Demo.A
  /\ editable Demo.demo (ro (widget Demo.editing_bad)).
Proof.
  assert (Hs : in_session Demo.demo Demo.editing_bad).
  { apply (in_main_loop_session Demo.demo Demo.Pscope).
    apply (main_loop_reach Demo.demo Demo.Pscope [] [] [258; 98; 97; 100]).
    vm_compute. reflexivity. }
  split; [exact Hs |]. split; [reflexivity |]. split; [reflexivity |].
  exact (editing_only_editable Demo.demo _ Hs eq_refl).
Defined.

Lemma store_changes_by_save_or_delete_example :
  main_loop_iter Demo.demo Demo.on_set_a 4 = Ok (Continue Demo.after_delete)
  /\ lstore Demo.on_set_a = Demo.a_is_set
  /\ lstore Demo.after_delete = []
  /\ (lstore Demo.after_delete = lstore Demo.on_set_a
      \/ (editing (widget Demo.on_set_a) = true
          /\ (fst (edit_setting Demo.demo (widget Demo.on_set_a) 4) = 13
              \/ fst (edit_setting Demo.demo (widget Demo.on_set_a) 4) = 10)
          /\ exists d,
               ro (widget Demo.on_set_a) = SETTING_ROW d
               /\ lstore Demo.after_delete
                  = snd (storef_setting Demo.demo (lstore Demo.on_set_a)
                           (w_settings (widget Demo.on_set_a)) d
                           (value (snd (edit_setting Demo.demo
                                          (widget Demo.on_set_a) 4)))))
      \/ (editing (widget Demo.on_set_a) = false /\ 4 = 4
          /\ exists d,
               ro (widget Demo.on_set_a) = SETTING_ROW d
               /\ lstore Demo.after_delete
                  = delete_setting Demo.demo (lstore Demo.on_set_a)
                      (w_settings (widget Demo.on_set_a)) d)).
Proof.
  assert (E : main_loop_iter Demo.demo Demo.on_set_a 4
              = Ok (Continue Demo.after_delete))
    by (vm_compute; reflexivity).
  split; [exact E |]. split; [reflexivity |]. split; [reflexivity |].
  exact (store_changes_by_save_or_delete Demo.demo Demo.on_set_a 4 _ E).
Defined.

Lemma loop_ends_by_exit_or_visit_example :
  in_session Demo.demo Demo.at_start_of_root
  /\ main_loop_iter Demo.demo Demo.at_start_of_root 13
     = Ok (Return (P := Demo.demo) (Some Demo.Xscope)
             (nil : Demo.demo_store) Samples.visit_screen)
  /\ ro (widget Demo.at_start_of_root) = CHILD_ROW Demo.Xscope
  /\ editing (widget Demo.at_start_of_root) = false.
Proof.
  assert (Hs : in_session Demo.demo Demo.at_start_of_root).
  { apply (session_start Demo.demo Demo.Pscope [] []).
    vm_compute. reflexivity. }
  assert (E : main_loop_iter Demo.demo Demo.at_start_of_root 13
              = Ok (Return (P := Demo.demo) (Some Demo.Xscope)
                      (nil : Demo.demo_store) Samples.visit_screen))
    by (vm_compute; reflexivity).
  split; [exact Hs |]. split; [exact E |]. split; [reflexivity |].
  exact (proj1 (loop_ends_by_exit_or_visit Demo.demo _ 13 _ _ _ Hs E)).
Defined.

Lemma main_loop_runs_example :
  0 < true_count Demo.demo Demo.Pscope <= 2 ^ 32 - SETTINGS_LIST_ROWS
  /\ exists e,
       main_loop Demo.demo Demo.Pscope [] [] [258; 98; 13; 259; 4; 13] = Ok e.
Proof.
  assert (Hc : 0 < true_count Demo.demo Demo.Pscope
               <= 2 ^ 32 - SETTINGS_LIST_ROWS)
    by (vm_compute; split; [reflexivity | discriminate]).
  split; [exact Hc |].
  exact (main_loop_runs Demo.demo Demo.Pscope [] []
           [258; 98; 13; 259; 4; 13] Hc).
Defined.

Lemma down_up_move_by_one_example :
  0 < true_count Demo.demo Demo.Pscope <= 2 ^ 32 - SETTINGS_LIST_ROWS
  /\ in_main_loop Demo.demo Demo.Pscope Samples.on_row_1
  /\ current Samples.on_row_1 = 1
  /\ (exists l',
        main_loop_iter Demo.demo Samples.on_row_1 258 = Ok (Continue l')
        /\ current l' = 2 /\ ro (widget l') = SETTING_ROW Demo.B)
  /\ (exists l',
        main_loop_iter Demo.demo Samples.on_row_1 259 = Ok (Continue l')
        /\ current l' = 0 /\ ro (widget l') = CHILD_ROW Demo.Xscope).
Proof.
  assert (Hc : 0 < true_count Demo.demo Demo.Pscope
               <= 2 ^ 32 - SETTINGS_LIST_ROWS)
    by (vm_compute; split; [reflexivity | discriminate]).
  assert (Hin : in_main_loop Demo.demo Demo.Pscope Samples.on_row_1).
  { apply (main_loop_reach Demo.demo Demo.Pscope [] [] [258]).
    vm_compute. reflexivity. }
  destruct (down_up_move_by_one Demo.demo Demo.Pscope Samples.on_row_1
              Hc Hin eq_refl) as [Hdown Hup].
  split; [exact Hc |]. split; [exact Hin |]. split; [reflexivity |].
  split.
  - destruct Hdown as [l' [Hit [Hcur [Hro _]]]];
      [vm_compute; reflexivity |].
    exists l'. split; [exact Hit |]. split; [exact Hcur |].
    exact (eq_trans Hro eq_refl).
  - destruct Hup as [l' [Hit [Hcur [Hro _]]]];
      [vm_compute; reflexivity |].
    exists l'. split; [exact Hit |]. split; [exact Hcur |].
    exact (eq_trans Hro eq_refl).
Defined.

Lemma main_loop_empty_scope_faults_example :
  true_count Demo.demo Demo.lonely = 0
  /\ settings_ui Demo.demo Demo.lonely [] [24] = Fault.
Proof.
  assert (Hc : true_count Demo.demo Demo.lonely = 0) by reflexivity.
  split; [exact Hc |].
  exact (proj2 (proj2 (main_loop_empty_scope_faults Demo.demo Demo.lonely
                         [] [] [24] Hc))).
Defined.

Lemma child_settings_shown_example :
  In Demo.Xscope (children Demo.Pscope)
  /\ In (SETTING_ROW Demo.D) (canonical_rows Demo.demo Demo.Xscope)
  /\ In (SETTING_ROW Demo.D) (canonical_rows Demo.demo Demo.Pscope).
Proof.
  assert (Hc : In Demo.Xscope (children Demo.Pscope))
    by (left; reflexivity).
  assert (Hd : In (SETTING_ROW Demo.D)
                 (canonical_rows Demo.demo Demo.Xscope))
    by (do 3 right; left; reflexivity).
  split; [exact Hc |]. split; [exact Hd |].
  exact (child_settings_shown Demo.demo _ _ _ Hc Hd).
Defined.
